(** * The coverage data store of coverage.py: [coverage/sqldata.py] and
      [coverage/context.py]

    A shallow embedding of [CoverageData] (the SQLite-backed store of measured
    lines and arcs), of [SqliteDb] and of [combine_context_switchers], with
    the properties of the store proved over it.

    Conventions of the embedding.
    - A method of [CoverageData] is a computation in the state-and-exception
      monad [M]: it reads and writes the pair of the world (the file system,
      the process id, the external functions) and of the handle [self], and
      either returns a value or raises.  The state at a raise is the state
      the exception leaves behind: the store turns SQLite's journal off
      ([pragma journal_mode=off]) and never relies on a rollback.
    - One thread runs: [threading.get_ident()] is constant, so [self._dbs]
      holds at most one [SqliteDb] and [self._lock] is never contended.
    - [self._debug] is [NoDebugging]: debug output changes no state.
    - A table is the list of its rows in table order, and a [select] returns
      rows in that order (SQL itself leaves the order open). *)

From Stdlib Require Import ZArith NArith Ascii String Lia.
From stdpp Require Import base tactics option list strings numbers gmap.

Open Scope Z_scope.
Open Scope string_scope.
Open Scope list_scope.

(** Python [bytes]: the list of the byte values, each below 256. *)
Abbreviation bytes := (list N).

(** ** Numbits *)

Module Numbits.

(** Modelled from the spec: [coverage/numbits.py] ([nums_to_numbits],
    [numbits_to_nums], [numbits_union]) is imported by [sqldata.py] and is not
    among the sources.  The spec (section 4.1): a numbits value is a byte
    string, bit [k] of byte [i] is set iff [8*i + k] is a member, and trailing
    zero bytes are not emitted. *)

(** truncate trailing zero bytes *)
Fixpoint strip_zeros (b : bytes) : bytes :=
  match b with
  | [] => []
  | x :: r =>
      match strip_zeros r with
      | [] => if N.eqb x 0 then [] else [x]
      | r' => x :: r'
      end
  end.

(** [b[i] |= 1 << k] *)
Fixpoint set_bit (b : bytes) (i : nat) (k : N) : bytes :=
  match b, i with
  | [], _ => []
  | x :: r, O => N.lor x (N.shiftl 1 k) :: r
  | x :: r, S i' => x :: set_bit r i' k
  end.

Definition max_num (nums : list N) : N := foldr N.max 0%N nums.

(** Modelled from the spec: [nums_to_numbits] of [coverage/numbits.py].
    [encode]: allocate [ceil((max(nums)+1)/8)] bytes, set the bits, truncate
    the trailing zero bytes; the empty set gives the empty byte string. *)
Definition nums_to_numbits (nums : list N) : bytes :=
  match nums with
  | [] => []
  | _ =>
      let nbytes := N.to_nat ((max_num nums + 1 + 7) / 8) in
      strip_zeros
        (foldl (fun b n => set_bit b (N.to_nat (n / 8)) (n mod 8))
               (replicate nbytes 0%N) nums)
  end.

(** the positions of the set bits of one byte, offset by [8 * byte_i] *)
Definition byte_nums (byte_i : nat) (byte : N) : list N :=
  omap (fun bit_i : N =>
          if N.testbit byte bit_i then Some (8 * N.of_nat byte_i + bit_i)%N
          else None)
       [0; 1; 2; 3; 4; 5; 6; 7]%N.

(** Modelled from the spec: [numbits_to_nums] of [coverage/numbits.py].
    [decode]: every set bit's position. *)
Definition numbits_to_nums (numbits : bytes) : list N :=
  mjoin (imap byte_nums numbits).

(** byte-wise OR, the shorter side padded with zero bytes *)
Fixpoint or_bytes (a b : bytes) : bytes :=
  match a, b with
  | [], _ => b
  | _, [] => a
  | x :: a', y :: b' => N.lor x y :: or_bytes a' b'
  end.

(** Modelled from the spec: [numbits_union] of [coverage/numbits.py].
    [union]: byte-wise OR, then truncate the trailing zero bytes. *)
Definition numbits_union (numbits1 numbits2 : bytes) : bytes :=
  strip_zeros (or_bytes numbits1 numbits2).

(** Bit [n] of a byte string. *)
Definition bit_at (b : bytes) (n : N) : bool :=
  N.testbit (nth (N.to_nat (n / 8)) b 0%N) (n mod 8).

End Numbits.

(** ** Exceptions and the monad of methods *)

(** The message of an exception: the text of the format string with its
    holes filled. *)
#[local] Unset Elimination Schemes.
Inductive piece :=
| Text (s : string)             (* literal text of the format string *)
| Plain (s : string)            (* [{}] of a str *)
| Repr (s : string)             (* [{!r}] of a str *)
| ReprBytes (b : bytes)         (* [{!r}] of a bytes *)
| Str (z : Z)                   (* [{}] or [%d] of an int *)
| StrExc (msg : list piece).    (* [{}] of an exception: its message *)

(** A raised exception: its class and its message. *)
Inductive exn := Exn (cls : string) (msg : list piece).
#[local] Set Elimination Schemes.

Definition CoverageException (msg : list piece) : exn := Exn "CoverageException" msg.
Definition exn_msg (e : exn) : list piece := let 'Exn _ msg := e in msg.

Inductive Res (A : Type) :=
| Ok (a : A)
| Raise (e : exn).
Arguments Ok {A} a.
Arguments Raise {A} e.

Definition M (S A : Type) : Type := S -> Res A * S.

#[global] Instance M_ret {S} : MRet (M S) := fun A (a : A) s => (Ok a, s).
#[global] Instance M_bind {S} : MBind (M S) := fun A B (f : A -> M S B) (m : M S A) s =>
  match m s with
  | (Ok a, s') => f a s'
  | (Raise e, s') => (Raise e, s')
  end.

Definition raise {S A} (e : exn) : M S A := fun s => (Raise e, s).
Definition get {S} : M S S := fun s => (Ok s, s).
Definition put {S} (s : S) : M S unit := fun _ => (Ok tt, s).
Definition modify {S} (f : S -> S) : M S unit := fun s => (Ok tt, f s).

(** [try: m except Exception as exc: handler exc] *)
Definition try_except {S A} (m : M S A) (handler : exn -> M S A) : M S A := fun s =>
  match m s with
  | (Ok a, s') => (Ok a, s')
  | (Raise e, s') => handler e s'
  end.

(** [for x in l: body x] *)
Fixpoint for_each {S A} (l : list A) (body : A -> M S unit) : M S unit :=
  match l with
  | [] => mret tt
  | x :: r => body x ;; for_each r body
  end.

(** ** Python dicts: the items in insertion order *)

Section dict.
Context {K V : Type} `{EqDecision K}.

Fixpoint dict_get (k : K) (d : list (K * V)) : option V :=
  match d with
  | [] => None
  | (k', v) :: r => if decide (k' = k) then Some v else dict_get k r
  end.

(** [d[k] = v]: a key already there keeps its place *)
Fixpoint dict_set (k : K) (v : V) (d : list (K * V)) : list (K * V) :=
  match d with
  | [] => [(k, v)]
  | (k', v') :: r => if decide (k' = k) then (k', v) :: r else (k', v') :: dict_set k v r
  end.

(** [{k: v for (k, v) in items}] and [d.update(items)] *)
Definition dict_update (d : list (K * V)) (items : list (K * V)) : list (K * V) :=
  foldl (fun d kv => dict_set kv.1 kv.2 d) d items.

Definition dict_of (items : list (K * V)) : list (K * V) := dict_update [] items.

End dict.

(** ** The database *)

Definition SCHEMA_VERSION : Z := 7.

(** The tables of [SCHEMA], each the list of its rows. *)
Record Database := {
  coverage_schema : list Z;              (* version *)
  meta : list (string * string);         (* key, value *)
  file : list (Z * string);              (* id, path *)
  context : list (Z * string);           (* id, context *)
  line_bits : list (Z * Z * bytes);      (* file_id, context_id, numbits *)
  arc : list (Z * Z * Z * Z);            (* file_id, context_id, fromno, tono *)
  tracer : list (Z * string);            (* file_id, tracer *)
}.

(** What [executescript(SCHEMA)] leaves in a database that had no tables. *)
Definition empty_db : Database :=
  {| coverage_schema := []; meta := []; file := []; context := [];
     line_bits := []; arc := []; tracer := [] |}.

(** What a path of the file system holds. *)
Inductive FileContent :=
| Garbage (head : bytes) (err : string)  (* not an SQLite database: its first bytes, and SQLite's error for it *)
| NoTables                               (* an SQLite database without the tables of [SCHEMA] *)
| Tables (d : Database).

(** [cov4_sig = b"!coverage.py: This is a private format"] *)
Definition cov4_sig : bytes :=
  map (fun c => N_of_ascii c) (list_ascii_of_string "!coverage.py: This is a private format").

(** [data[:n]] *)
Definition prefix_bytes (n : nat) (data : bytes) : bytes := take n data.

(** ** Statements *)

(** The outcome of a statement on the tables: its rows and the tables after
    it, or SQLite's error message. *)
Inductive sql_res (A : Type) :=
| SqlOk (a : A) (d : Database)
| SqlError (msg : string).
Arguments SqlOk {A} a d.
Arguments SqlError {A} msg.

Definition stmt (A : Type) : Type := Database -> sql_res A.

Definition query {A} (f : Database -> A) : stmt A := fun d => SqlOk (f d) d.

(** The rowid SQLite gives a new row of a table with an [integer primary
    key]: 1 in an empty table, else one more than the largest in use. *)
Definition next_rowid {A} (rows : list (Z * A)) : Z :=
  match rows with
  | [] => 1
  | r :: rest => 1 + foldl (fun m r' => Z.max m r'.1) r.1 rest
  end.

Definition set_coverage_schema (x : list Z) (d : Database) : Database :=
  {| coverage_schema := x; meta := meta d; file := file d; context := context d;
     line_bits := line_bits d; arc := arc d; tracer := tracer d |}.
Definition set_meta (x : list (string * string)) (d : Database) : Database :=
  {| coverage_schema := coverage_schema d; meta := x; file := file d; context := context d;
     line_bits := line_bits d; arc := arc d; tracer := tracer d |}.
Definition set_file (x : list (Z * string)) (d : Database) : Database :=
  {| coverage_schema := coverage_schema d; meta := meta d; file := x; context := context d;
     line_bits := line_bits d; arc := arc d; tracer := tracer d |}.
Definition set_context_table (x : list (Z * string)) (d : Database) : Database :=
  {| coverage_schema := coverage_schema d; meta := meta d; file := file d; context := x;
     line_bits := line_bits d; arc := arc d; tracer := tracer d |}.
Definition set_line_bits (x : list (Z * Z * bytes)) (d : Database) : Database :=
  {| coverage_schema := coverage_schema d; meta := meta d; file := file d; context := context d;
     line_bits := x; arc := arc d; tracer := tracer d |}.
Definition set_arc (x : list (Z * Z * Z * Z)) (d : Database) : Database :=
  {| coverage_schema := coverage_schema d; meta := meta d; file := file d; context := context d;
     line_bits := line_bits d; arc := x; tracer := tracer d |}.
Definition set_tracer (x : list (Z * string)) (d : Database) : Database :=
  {| coverage_schema := coverage_schema d; meta := meta d; file := file d; context := context d;
     line_bits := line_bits d; arc := arc d; tracer := x |}.

(** [insert into coverage_schema (version) values (?)] *)
Definition insert_coverage_schema (v : Z) : stmt unit := fun d =>
  SqlOk tt (set_coverage_schema (coverage_schema d ++ [v]) d).

(** [select version from coverage_schema] *)
Definition select_version : stmt (list Z) := query coverage_schema.

(** [insert into meta (key, value) values (?, ?)]; [unique (key)] *)
Definition insert_meta (kv : string * string) : stmt unit := fun d =>
  if decide (kv.1 ∈ (meta d).*1) then SqlError "UNIQUE constraint failed: meta.key"
  else SqlOk tt (set_meta (meta d ++ [kv]) d).

(** [select value from meta where key = 'has_arcs'] *)
Definition select_has_arcs : stmt (list string) :=
  query (fun d => (filter (fun kv => kv.1 = "has_arcs") (meta d)).*2).

(** [select path, id from file] *)
Definition select_path_id : stmt (list (string * Z)) :=
  query (fun d => map (fun r => (r.2, r.1)) (file d)).

(** [select id, path from file] *)
Definition select_id_path : stmt (list (Z * string)) := query file.

(** [select path from file] *)
Definition select_path : stmt (list string) := query (fun d => (file d).*2).

(** [insert or replace into file (path) values (?)]; [unique (path)]: the row
    that holds the path goes, the new row gets the next rowid, which is the
    statement's [lastrowid]. *)
Definition insert_or_replace_file (path : string) : stmt Z := fun d =>
  let id := next_rowid (file d) in
  SqlOk id (set_file (filter (fun r => r.2 ≠ path) (file d) ++ [(id, path)]) d).

(** [insert or ignore into file (path) values (?)] *)
Definition insert_or_ignore_file (path : string) : stmt unit := fun d =>
  if decide (path ∈ (file d).*2) then SqlOk tt d
  else SqlOk tt (set_file (file d ++ [(next_rowid (file d), path)]) d).

(** [select id from context where context = ?] *)
Definition select_context_id (ctx : string) : stmt (list Z) :=
  query (fun d => (filter (fun r => r.2 = ctx) (context d)).*1).

(** [select context from context] *)
Definition select_context : stmt (list string) := query (fun d => (context d).*2).

(** [select id, context from context] *)
Definition select_id_context : stmt (list (Z * string)) := query context.

(** [select distinct(context) from context] *)
Definition select_distinct_context : stmt (list string) :=
  query (fun d => remove_dups (context d).*2).

(** [insert into context (context) values (?)]; [unique (context)] *)
Definition insert_context (ctx : string) : stmt Z := fun d =>
  if decide (ctx ∈ (context d).*2) then SqlError "UNIQUE constraint failed: context.context"
  else let id := next_rowid (context d) in
       SqlOk id (set_context_table (context d ++ [(id, ctx)]) d).

(** [insert or ignore into context (context) values (?)] *)
Definition insert_or_ignore_context (ctx : string) : stmt unit := fun d =>
  if decide (ctx ∈ (context d).*2) then SqlOk tt d
  else SqlOk tt (set_context_table (context d ++ [(next_rowid (context d), ctx)]) d).

(** [select numbits from line_bits where file_id = ? and context_id = ?] *)
Definition select_numbits (file_id context_id : Z) : stmt (list bytes) :=
  query (fun d =>
    (filter (fun r => r.1.1 = file_id ∧ r.1.2 = context_id) (line_bits d)).*2).

(** [insert or replace into line_bits (file_id, context_id, numbits) values
    (?, ?, ?)]; [unique (file_id, context_id)] *)
Definition insert_or_replace_line_bits (row : Z * Z * bytes) : stmt unit := fun d =>
  SqlOk tt (set_line_bits
    (filter (fun r => ¬ (r.1.1 = row.1.1 ∧ r.1.2 = row.1.2)) (line_bits d) ++ [row]) d).

(** [insert into line_bits (file_id, context_id, numbits) values (?, ?, ?)] *)
Definition insert_line_bits (row : Z * Z * bytes) : stmt unit := fun d =>
  if decide (row.1 ∈ (line_bits d).*1)
  then SqlError "UNIQUE constraint failed: line_bits.file_id, line_bits.context_id"
  else SqlOk tt (set_line_bits (line_bits d ++ [row]) d).

(** [delete from line_bits] *)
Definition delete_line_bits : stmt unit := fun d => SqlOk tt (set_line_bits [] d).

(** [context_id in (?, ...)], when a query context is set *)
Definition in_query_contexts (ids : option (list Z)) (context_id : Z) : Prop :=
  match ids with
  | None => True
  | Some l => context_id ∈ l
  end.

#[global] Instance in_query_contexts_dec ids c : Decision (in_query_contexts ids c).
Proof. destruct ids; simpl; apply _. Defined.

(** [select numbits from line_bits where file_id = ?]
    [+ " and context_id in (?, ...)"] *)
Definition select_file_numbits (file_id : Z) (ids : option (list Z)) : stmt (list bytes) :=
  query (fun d =>
    (filter (fun r => r.1.1 = file_id ∧ in_query_contexts ids r.1.2) (line_bits d)).*2).

(** [insert or ignore into arc (file_id, context_id, fromno, tono) values
    (?, ?, ?, ?)]; [unique (file_id, context_id, fromno, tono)] *)
Definition insert_or_ignore_arc (row : Z * Z * Z * Z) : stmt unit := fun d =>
  if decide (row ∈ arc d) then SqlOk tt d
  else SqlOk tt (set_arc (arc d ++ [row]) d).

(** [select distinct fromno, tono from arc where file_id = ?]
    [+ " and context_id in (?, ...)"] *)
Definition select_distinct_arcs (file_id : Z) (ids : option (list Z)) : stmt (list (Z * Z)) :=
  query (fun d =>
    remove_dups
      (map (fun r => (r.1.2, r.2))
           (filter (fun r => r.1.1.1 = file_id ∧ in_query_contexts ids r.1.1.2) (arc d)))).

(** [select tracer from tracer where file_id = ?] *)
Definition select_tracer (file_id : Z) : stmt (list string) :=
  query (fun d => (filter (fun r => r.1 = file_id) (tracer d)).*2).

(** [insert into tracer (file_id, tracer) values (?, ?)]; [file_id] is the
    primary key *)
Definition insert_tracer (row : Z * string) : stmt unit := fun d =>
  if decide (row.1 ∈ (tracer d).*1) then SqlError "UNIQUE constraint failed: tracer.file_id"
  else SqlOk tt (set_tracer (tracer d ++ [row]) d).

(** [insert or ignore into tracer (file_id, tracer) values (?, ?)] *)
Definition insert_or_ignore_tracer (row : Z * string) : stmt unit := fun d =>
  if decide (row.1 ∈ (tracer d).*1) then SqlOk tt d
  else SqlOk tt (set_tracer (tracer d ++ [row]) d).

(** The inner joins of [update] on [file.id] and [context.id]: the path and
    the context name of a row, when both ids resolve. *)
Definition path_of_id (d : Database) (id : Z) : list string :=
  (filter (fun r => r.1 = id) (file d)).*2.
Definition context_of_id (d : Database) (id : Z) : list string :=
  (filter (fun r => r.1 = id) (context d)).*2.

(** [select file.path, context.context, arc.fromno, arc.tono from arc
     inner join file on file.id = arc.file_id
     inner join context on context.id = arc.context_id] *)
Definition select_arcs_joined : stmt (list (string * string * Z * Z)) :=
  query (fun d =>
    r ← arc d; p ← path_of_id d r.1.1.1; c ← context_of_id d r.1.1.2;
    [(p, c, r.1.2, r.2)]).

(** [select file.path, context.context, line_bits.numbits from line_bits
     inner join file on file.id = line_bits.file_id
     inner join context on context.id = line_bits.context_id] *)
Definition select_line_bits_joined : stmt (list (string * string * bytes)) :=
  query (fun d =>
    r ← line_bits d; p ← path_of_id d r.1.1; c ← context_of_id d r.1.2;
    [(p, c, r.2)]).

(** [select file.path, tracer from tracer
     inner join file on file.id = tracer.file_id] *)
Definition select_tracers_joined : stmt (list (string * string)) :=
  query (fun d => r ← tracer d; p ← path_of_id d r.1; [(p, r.2)]).

(** ** The world and the handle *)

(** The [suffix] argument of [CoverageData]: [None] (or [False]), a string,
    or [True]. *)
Inductive Suffix := SuffixNone | SuffixStr (s : string) | SuffixTrue.

(** What the store sees of its surroundings.  Only [fs] changes. *)
Record World := {
  fs : gmap string FileContent;          (* the files that exist, by path *)
  os_getpid : Z;                         (* [os.getpid()] *)
  os_path_abspath : string -> string;    (* [os.path.abspath] *)
  default_suffix : Z -> string;          (* the generated suffix of [filename_suffix(True)], by pid *)
  glob_glob : gmap string FileContent -> string -> list string;  (* [glob.glob] *)
  sys_argv : string;                     (* [str(getattr(sys, 'argv', None))] *)
  version : string;                      (* [coverage.version.__version__] *)
  now : string;                          (* [datetime.datetime.now().strftime(...)] *)
  zlib_compress : bytes -> bytes;        (* [zlib.compress] *)
  zlib_decompress : bytes -> option bytes;   (* [zlib.decompress], [None] for [zlib.error] *)
  encode_utf8 : string -> bytes;         (* [str.encode("utf8")] *)
  decode_utf8 : bytes -> option string;  (* [bytes.decode("utf8")], [None] for [UnicodeDecodeError] *)
  sqlite_iterdump : FileContent -> list string;  (* [con.iterdump()] *)
  sqlite_executescript : string -> FileContent -> FileContent + string;
                                         (* [con.executescript(script)]: the database after, or SQLite's error *)
  re_search : string -> string -> option bool;
                                         (* [re.search(pattern, string) is not None], [None] for [re.error] *)
}.

Definition set_fs (x : gmap string FileContent) (w : World) : World :=
  {| fs := x; os_getpid := os_getpid w; os_path_abspath := os_path_abspath w;
     default_suffix := default_suffix w; glob_glob := glob_glob w;
     sys_argv := sys_argv w; version := version w; now := now w;
     zlib_compress := zlib_compress w; zlib_decompress := zlib_decompress w;
     encode_utf8 := encode_utf8 w; decode_utf8 := decode_utf8 w;
     sqlite_iterdump := sqlite_iterdump w;
     sqlite_executescript := sqlite_executescript w;
     re_search := re_search w |}.

(** [SqliteDb]: the file name, and the database of an open connection to
    [":memory:"], which lives in the connection ([con]).  A connection to a
    file holds no data of its own: the data is the file's.  The nesting
    counter [nest] is not kept: [with] blocks are well bracketed, so it is 0
    between two methods, and entering again only reconnects. *)
Record SqliteDb := {
  filename : string;
  con : option FileContent;
}.

Record CoverageData := {
  _no_disk : bool;
  _basename : string;
  _suffix : Suffix;
  _filename : string;
  _file_map : list (string * Z);
  _dbs : option SqliteDb;                (* the entry of [threading.get_ident()] *)
  _pid : Z;
  _have_used : bool;
  _has_lines : bool;
  _has_arcs : bool;
  _current_context : option string;
  _current_context_id : option Z;
  _query_context_ids : option (list Z);
}.

Definition set__filename (x : string) (c : CoverageData) : CoverageData :=
  {| _no_disk := _no_disk c; _basename := _basename c; _suffix := _suffix c;
     _filename := x; _file_map := _file_map c; _dbs := _dbs c; _pid := _pid c;
     _have_used := _have_used c; _has_lines := _has_lines c; _has_arcs := _has_arcs c;
     _current_context := _current_context c; _current_context_id := _current_context_id c;
     _query_context_ids := _query_context_ids c |}.
Definition set__file_map (x : list (string * Z)) (c : CoverageData) : CoverageData :=
  {| _no_disk := _no_disk c; _basename := _basename c; _suffix := _suffix c;
     _filename := _filename c; _file_map := x; _dbs := _dbs c; _pid := _pid c;
     _have_used := _have_used c; _has_lines := _has_lines c; _has_arcs := _has_arcs c;
     _current_context := _current_context c; _current_context_id := _current_context_id c;
     _query_context_ids := _query_context_ids c |}.
Definition set__dbs (x : option SqliteDb) (c : CoverageData) : CoverageData :=
  {| _no_disk := _no_disk c; _basename := _basename c; _suffix := _suffix c;
     _filename := _filename c; _file_map := _file_map c; _dbs := x; _pid := _pid c;
     _have_used := _have_used c; _has_lines := _has_lines c; _has_arcs := _has_arcs c;
     _current_context := _current_context c; _current_context_id := _current_context_id c;
     _query_context_ids := _query_context_ids c |}.
Definition set__pid (x : Z) (c : CoverageData) : CoverageData :=
  {| _no_disk := _no_disk c; _basename := _basename c; _suffix := _suffix c;
     _filename := _filename c; _file_map := _file_map c; _dbs := _dbs c; _pid := x;
     _have_used := _have_used c; _has_lines := _has_lines c; _has_arcs := _has_arcs c;
     _current_context := _current_context c; _current_context_id := _current_context_id c;
     _query_context_ids := _query_context_ids c |}.
Definition set__have_used (x : bool) (c : CoverageData) : CoverageData :=
  {| _no_disk := _no_disk c; _basename := _basename c; _suffix := _suffix c;
     _filename := _filename c; _file_map := _file_map c; _dbs := _dbs c; _pid := _pid c;
     _have_used := x; _has_lines := _has_lines c; _has_arcs := _has_arcs c;
     _current_context := _current_context c; _current_context_id := _current_context_id c;
     _query_context_ids := _query_context_ids c |}.
Definition set__has_lines (x : bool) (c : CoverageData) : CoverageData :=
  {| _no_disk := _no_disk c; _basename := _basename c; _suffix := _suffix c;
     _filename := _filename c; _file_map := _file_map c; _dbs := _dbs c; _pid := _pid c;
     _have_used := _have_used c; _has_lines := x; _has_arcs := _has_arcs c;
     _current_context := _current_context c; _current_context_id := _current_context_id c;
     _query_context_ids := _query_context_ids c |}.
Definition set__has_arcs (x : bool) (c : CoverageData) : CoverageData :=
  {| _no_disk := _no_disk c; _basename := _basename c; _suffix := _suffix c;
     _filename := _filename c; _file_map := _file_map c; _dbs := _dbs c; _pid := _pid c;
     _have_used := _have_used c; _has_lines := _has_lines c; _has_arcs := x;
     _current_context := _current_context c; _current_context_id := _current_context_id c;
     _query_context_ids := _query_context_ids c |}.
Definition set__current_context (x : option string) (c : CoverageData) : CoverageData :=
  {| _no_disk := _no_disk c; _basename := _basename c; _suffix := _suffix c;
     _filename := _filename c; _file_map := _file_map c; _dbs := _dbs c; _pid := _pid c;
     _have_used := _have_used c; _has_lines := _has_lines c; _has_arcs := _has_arcs c;
     _current_context := x; _current_context_id := _current_context_id c;
     _query_context_ids := _query_context_ids c |}.
Definition set__current_context_id (x : option Z) (c : CoverageData) : CoverageData :=
  {| _no_disk := _no_disk c; _basename := _basename c; _suffix := _suffix c;
     _filename := _filename c; _file_map := _file_map c; _dbs := _dbs c; _pid := _pid c;
     _have_used := _have_used c; _has_lines := _has_lines c; _has_arcs := _has_arcs c;
     _current_context := _current_context c; _current_context_id := x;
     _query_context_ids := _query_context_ids c |}.
Definition set__query_context_ids (x : option (list Z)) (c : CoverageData) : CoverageData :=
  {| _no_disk := _no_disk c; _basename := _basename c; _suffix := _suffix c;
     _filename := _filename c; _file_map := _file_map c; _dbs := _dbs c; _pid := _pid c;
     _have_used := _have_used c; _has_lines := _has_lines c; _has_arcs := _has_arcs c;
     _current_context := _current_context c; _current_context_id := _current_context_id c;
     _query_context_ids := x |}.

(** The state of a method: the world and [self]. *)
Definition St : Type := World * CoverageData.

Definition self_ {A} (f : CoverageData -> A) : M St A := fun s => (Ok (f s.2), s).
Definition world_ {A} (f : World -> A) : M St A := fun s => (Ok (f s.1), s).
Definition set_self (f : CoverageData -> CoverageData) : M St unit :=
  fun s => (Ok tt, (s.1, f s.2)).
Definition set_world (f : World -> World) : M St unit :=
  fun s => (Ok tt, (f s.1, s.2)).

(** [d[k]], raising [KeyError] *)
Definition dict_index {S K V} `{EqDecision K} (k : K) (d : list (K * V)) : M S V :=
  match dict_get k d with
  | Some v => mret v
  | None => raise (Exn "KeyError" [])
  end.

(** ** [SqliteDb] *)

Definition memory : string := ":memory:".

(** The database a connection of [db] reads and writes: the one of the
    connection for [":memory:"], else the file's; [sqlite3.connect] makes an
    empty database of a path that does not exist. *)
Definition db_content (w : World) (db : SqliteDb) : FileContent :=
  if decide (filename db = memory) then default NoTables (con db)
  else default NoTables (fs w !! filename db).

Definition db_store (c : FileContent) (db : SqliteDb) : M St unit :=
  if decide (filename db = memory)
  then set_self (set__dbs (Some {| filename := filename db; con := Some c |}))
  else set_world (fun w => set_fs (<[filename db := c]> (fs w)) w).

(** [self._dbs[threading.get_ident()]] *)
Definition the_db : M St SqliteDb :=
  dbs ← self_ _dbs;
  match dbs with
  | Some db => mret db
  | None => raise (Exn "KeyError" [])
  end.

(** The first bytes of the file [open(self.filename, "rb")] reads, when it
    can be opened. *)
Definition file_head (w : World) (name : string) : option bytes :=
  match fs w !! name with
  | Some (Garbage head _) => Some head
  | Some _ => Some []     (* an SQLite file starts with SQLite's own signature *)
  | None => None
  end.

(** The [except sqlite3.Error] clause of [SqliteDb.execute]. *)
Definition execute_error {A} (db : SqliteDb) (msg : string) : M St A :=
  w ← world_ id;
  let msg :=
    match file_head w (filename db) with
    | Some head =>
        if decide (take (length cov4_sig) head = cov4_sig)
        then "Looks like a coverage 4.x data file. Are you mixing versions of coverage?"
        else msg
    | None => msg
    end in
  raise (CoverageException
           [Text "Couldn't use data file "; Repr (filename db); Text ": "; Plain msg]).

(** A statement on what the connection holds: the tables, no table of that
    name, or no database at all. *)
Definition run_stmt {A} (table : string) (st : stmt A) (c : FileContent)
  : (A * FileContent) + string :=
  match c with
  | Tables d =>
      match st d with
      | SqlOk a d' => inl (a, Tables d')
      | SqlError msg => inr msg
      end
  | NoTables => inr ("no such table: " +:+ table)
  | Garbage _ err => inr err
  end.

(** [SqliteDb.execute(sql, parameters)]: [self.con.execute], tried a second
    time when it raises (SQLite is deterministic here, so the second try does
    what the first did), and [sqlite3.Error] wrapped.  [sql] is the text of
    the statement, [table] the table it names and [st] what it does. *)
Definition execute {A} (sql table : string) (st : stmt A) : M St A :=
  db ← the_db;
  w ← world_ id;
  match run_stmt table st (db_content w db) with
  | inl (a, c') => db_store c' db;; mret a
  | inr msg => execute_error db msg
  end.

(** The two [pragma] statements of [SqliteDb._connect]: they need a
    database, and change no table. *)
Definition pragma (sql : string) : M St unit :=
  db ← the_db;
  w ← world_ id;
  match db_content w db with
  | Garbage _ err => execute_error db err
  | _ => mret tt
  end.

(** [SqliteDb._connect] *)
Definition SqliteDb__connect : M St unit :=
  db ← the_db;
  w ← world_ id;
  if decide (filename db = memory ∧ is_Some (con db)) then mret tt
  else
    db_store (db_content w db) db;;      (* [sqlite3.connect(self.filename)] *)
    pragma "pragma journal_mode=off";;
    pragma "pragma synchronous=off".

(** [with db: body]: [__enter__] connects; [__exit__] commits and closes. *)
Definition with_db {A} (body : M St A) : M St A :=
  SqliteDb__connect;; body.

(** [SqliteDb.execute_one(sql, parameters)] *)
Definition execute_one {A} (sql table : string) (st : stmt (list A)) : M St (option A) :=
  rows ← execute sql table st;
  match rows with
  | [] => mret None
  | [row] => mret (Some row)
  | _ => raise (CoverageException
                  [Text "Sql "; Repr sql; Text " shouldn't return ";
                   Str (Z.of_nat (length rows)); Text " rows"])
  end.

Definition sqlite3_Error (msg : string) : exn := Exn "sqlite3.Error" [Plain msg].

(** One pass of [con.executemany] over the rows a generator yields: [None]
    is a row whose computation raises [KeyError].  It stops at the first
    failure and returns the tables so far and the rows not yet drawn. *)
Inductive many_end (R : Type) :=
| ManyDone
| ManyKeyError                            (* the generator raised: it is finished *)
| ManySqlError (msg : string) (rest : list (option R)).
Arguments ManyDone {R}.
Arguments ManyKeyError {R}.
Arguments ManySqlError {R} msg rest.

Fixpoint many_pass {R} (f : R -> stmt unit) (rows : list (option R)) (d : Database)
  : Database * many_end R :=
  match rows with
  | [] => (d, ManyDone)
  | None :: _ => (d, ManyKeyError)
  | Some r :: rest =>
      match f r d with
      | SqlOk _ d' => many_pass f rest d'
      | SqlError msg => (d, ManySqlError msg rest)
      end
  end.

(** [SqliteDb.executemany(sql, data)] with [data] a generator:
    [self.con.executemany], and on any exception once more, over what the
    generator still yields. *)
Definition executemany_gen {R} (sql table : string) (f : R -> stmt unit)
    (rows : list (option R)) : M St unit :=
  db ← the_db;
  w ← world_ id;
  match db_content w db with
  | Tables d =>
      match many_pass f rows d with
      | (d1, ManyDone) | (d1, ManyKeyError) => db_store (Tables d1) db
      | (d1, ManySqlError _ rest) =>
          match many_pass f rest d1 with
          | (d2, ManyDone) => db_store (Tables d2) db
          | (d2, ManyKeyError) => db_store (Tables d2) db;; raise (Exn "KeyError" [])
          | (d2, ManySqlError msg _) => db_store (Tables d2) db;; raise (sqlite3_Error msg)
          end
      end
  | NoTables => raise (sqlite3_Error ("no such table: " +:+ table))
  | Garbage _ err => raise (sqlite3_Error err)
  end.

(** [SqliteDb.executemany(sql, data)] with [data] a list: the second try
    starts over from the first row. *)
Definition executemany {R} (sql table : string) (f : R -> stmt unit)
    (rows : list R) : M St unit :=
  db ← the_db;
  w ← world_ id;
  match db_content w db with
  | Tables d =>
      match many_pass f (Some <$> rows) d with
      | (d1, ManySqlError _ _) =>
          match many_pass f (Some <$> rows) d1 with
          | (d2, ManySqlError msg _) => db_store (Tables d2) db;; raise (sqlite3_Error msg)
          | (d2, _) => db_store (Tables d2) db
          end
      | (d1, _) => db_store (Tables d1) db
      end
  | NoTables => raise (sqlite3_Error ("no such table: " +:+ table))
  | Garbage _ err => raise (sqlite3_Error err)
  end.

(** [db.executescript(SCHEMA)]: the seven [CREATE TABLE] statements. *)
Definition executescript_SCHEMA : M St unit :=
  db ← the_db;
  w ← world_ id;
  match db_content w db with
  | NoTables => db_store (Tables empty_db) db
  | Tables _ => raise (sqlite3_Error "table coverage_schema already exists")
  | Garbage _ err => raise (sqlite3_Error err)
  end.

(** [SqliteDb.executescript(script)] *)
Definition executescript (script : string) : M St unit :=
  db ← the_db;
  w ← world_ id;
  match sqlite_executescript w script (db_content w db) with
  | inl c' => db_store c' db
  | inr msg => raise (sqlite3_Error msg)
  end.

(** [SqliteDb.dump()]: ["\n".join(self.con.iterdump())] *)
Definition dump : M St string :=
  db ← the_db;
  w ← world_ id;
  mret (String.concat "
" (sqlite_iterdump w (db_content w db))).

(** ** Python's [int(str)] *)

(** Python's [int] on a string, base 10: blanks stripped at both ends, an
    optional sign, decimal digits with single underscores between them.
    The blanks are the characters 9 to 13 and the space, 32.  Only ASCII
    digits are read: the other spellings Python accepts (Unicode digits and
    blanks) give [None], as a [ValueError] does. *)
Definition is_blank (c : ascii) : bool :=
  let n := N_of_ascii c in
  ((9 <=? n) && (n <=? 13) || (n =? 32))%N.

Definition digit_of (c : ascii) : option Z :=
  let n := Z.of_N (N_of_ascii c) in
  if ((48 <=? n) && (n <=? 57))%Z then Some (n - 48) else None.

Fixpoint int_digits (acc : Z) (after_digit : bool) (l : list ascii) : option Z :=
  match l with
  | [] => if after_digit then Some acc else None
  | c :: r =>
      if decide (c = "_"%char) then
        if after_digit then
          match r with
          | [] => None
          | _ => int_digits acc false r
          end
        else None
      else
        match digit_of c with
        | Some n => int_digits (10 * acc + n) true r
        | None => None
        end
  end.

Fixpoint drop_blanks (l : list ascii) : list ascii :=
  match l with
  | c :: r => if is_blank c then drop_blanks r else l
  | [] => []
  end.

Definition py_int (s : string) : option Z :=
  let l := reverse (drop_blanks (reverse (drop_blanks (list_ascii_of_string s)))) in
  match l with
  | "-"%char :: r => Z.opp <$> int_digits 0 false r
  | "+"%char :: r => int_digits 0 false r
  | _ => int_digits 0 false l
  end.

(** [str(int(b))] of a bool *)
Definition str_int_bool (b : bool) : string := if b then "1" else "0".

(** ** [CoverageData] *)

(** Modelled from the spec: [filename_suffix] of [coverage/misc.py], not
    among the sources.  The spec (section 4.8): an optional suffix is given
    as it is, and for the boolean true a default suffix of the form
    [<hostname>.<pid>.<random>] is generated, by a generator outside the
    store. *)
Definition filename_suffix (w : World) (suffix : Suffix) : option string :=
  match suffix with
  | SuffixNone => None
  | SuffixStr s => Some s
  | SuffixTrue => Some (default_suffix w (os_getpid w))
  end.

(** Modelled from the spec: [file_be_gone] of [coverage/misc.py], not among
    the sources.  The spec (section 4.8): delete the data file if it
    exists. *)
Definition file_be_gone (path : string) : M St unit :=
  set_world (fun w => set_fs (delete path (fs w)) w).

Definition _choose_filename : M St unit :=
  c ← self_ id;
  w ← world_ id;
  if _no_disk c then set_self (set__filename memory)
  else
    set_self (set__filename (_basename c));;
    match filename_suffix w (_suffix c) with
    | Some suffix =>
        if decide (suffix = "") then mret tt
        else set_self (fun c => set__filename (_filename c +:+ "." +:+ suffix) c)
    | None => mret tt
    end.

(** [CoverageData(basename, suffix, no_disk)], in the world [w] *)
Definition __init__ (basename : option string) (suffix : Suffix) (no_disk : bool)
    (w : World) : CoverageData :=
  let basename :=
    match basename with
    | Some b => if decide (b = "") then ".coverage" else b
    | None => ".coverage"
    end in
  let c :=
    {| _no_disk := no_disk; _basename := os_path_abspath w basename; _suffix := suffix;
       _filename := ""; _file_map := []; _dbs := None; _pid := os_getpid w;
       _have_used := false; _has_lines := false; _has_arcs := false;
       _current_context := None; _current_context_id := None;
       _query_context_ids := None |} in
  (_choose_filename (w, c)).2.2.

Definition _reset : M St unit :=
  set_self (set__dbs None);;      (* after [db.close()] for each *)
  set_self (set__file_map []);;
  set_self (set__have_used false);;
  set_self (set__current_context_id None).

Definition _create_db : M St unit :=
  c ← self_ id;
  w ← world_ id;
  set_self (set__dbs (Some {| filename := _filename c; con := None |}));;
  with_db (
    executescript_SCHEMA;;
    execute "insert into coverage_schema (version) values (?)" "coverage_schema"
            (insert_coverage_schema SCHEMA_VERSION);;
    executemany "insert into meta (key, value) values (?, ?)" "meta" insert_meta
                [("sys_argv", sys_argv w); ("version", version w); ("when", now w)]).

(** ["Data file {!r} doesn't seem to be a coverage data file: {}"] *)
Definition malformed_file (name : string) (exc : exn) : exn :=
  CoverageException
    [Text "Data file "; Repr name; Text " doesn't seem to be a coverage data file: ";
     StrExc (exn_msg exc)].

(** ["Couldn't use data file {!r}: wrong schema: {} instead of {}"] *)
Definition wrong_schema (name : string) (schema_version : Z) : exn :=
  CoverageException
    [Text "Couldn't use data file "; Repr name; Text ": wrong schema: ";
     Str schema_version; Text " instead of "; Str SCHEMA_VERSION].

Definition _read_db : M St unit :=
  c ← self_ id;
  the_db;;
  with_db (
    schema_version ← try_except
      (row ← execute_one "select version from coverage_schema" "coverage_schema"
                         select_version;
       match row with
       | Some schema_version => mret schema_version
       | None => raise (Exn "TypeError" [Text "cannot unpack non-iterable NoneType object"])
       end)
      (fun exc => raise (malformed_file (_filename c) exc));
    (if decide (schema_version ≠ SCHEMA_VERSION)
     then raise (wrong_schema (_filename c) schema_version)
     else mret tt);;
    rows ← execute "select value from meta where key = 'has_arcs'" "meta" select_has_arcs;
    for_each rows (fun row =>
      match py_int row with
      | Some n =>
          set_self (set__has_arcs (bool_decide (n ≠ 0)));;
          set_self (fun c => set__has_lines (negb (_has_arcs c)) c)
      | None => raise (Exn "ValueError"
                         [Text "invalid literal for int() with base 10: "; Repr row])
      end);;
    rows ← execute "select path, id from file" "file" select_path_id;
    for_each rows (fun '(path, file_id) =>
      set_self (fun c => set__file_map (dict_set path file_id (_file_map c)) c))).

Definition _open_db : M St unit :=
  c ← self_ id;
  set_self (set__dbs (Some {| filename := _filename c; con := None |}));;
  _read_db.

(** [self._connect()]; the [SqliteDb] it returns is [the_db] *)
Definition _connect : M St unit :=
  c ← self_ id;
  w ← world_ id;
  match _dbs c with
  | None =>
      if decide (is_Some (fs w !! _filename c))    (* [os.path.exists] *)
      then _open_db
      else _create_db
  | Some _ => mret tt
  end.

(** [with self._connect() as con: body] *)
Definition with_connect {A} (body : M St A) : M St A :=
  _connect;; with_db body.

(** [erase(parallel)] *)
Definition erase (parallel : bool) : M St unit :=
  _reset;;
  c ← self_ id;
  if _no_disk c then mret tt
  else
    file_be_gone (_filename c);;
    if parallel then
      (* [pattern]: the directory and the local name of the absolute
         [_filename] joined again, and [".*"] *)
      w ← world_ id;
      for_each (glob_glob w (fs w) (_filename c +:+ ".*")) file_be_gone
    else mret tt.

Definition read : M St unit :=
  with_connect (set_self (set__have_used true)).

Definition write : M St unit := mret tt.

Definition _start_using : M St unit :=
  c ← self_ id;
  w ← world_ id;
  (if decide (_pid c ≠ os_getpid w) then
     _reset;;
     _choose_filename;;
     set_self (set__pid (os_getpid w))
   else mret tt);;
  c ← self_ id;
  (if negb (_have_used c) then erase false else mret tt);;
  set_self (set__have_used true).

Definition has_arcs : M St bool := self_ _has_arcs.

(** [measured_files]: the keys of [_file_map] *)
Definition measured_files : M St (list string) := self_ (fun c => (_file_map c).*1).

Definition _file_id (path : string) (add : bool) : M St (option Z) :=
  c ← self_ id;
  (match dict_get path (_file_map c) with
   | None =>
       if add then
         with_connect (
           lastrowid ← execute "insert or replace into file (path) values (?)" "file"
                               (insert_or_replace_file path);
           set_self (fun c => set__file_map (dict_set path lastrowid (_file_map c)) c))
       else mret tt
   | Some _ => mret tt
   end);;
  self_ (fun c => dict_get path (_file_map c)).

Definition _context_id (ctx : string) : M St (option Z) :=
  _start_using;;
  with_connect (
    execute_one "select id from context where context = ?" "context"
                (select_context_id ctx)).

Definition set_context (ctx : option string) : M St unit :=
  set_self (set__current_context ctx);;
  set_self (set__current_context_id None).

Definition _set_context_id : M St unit :=
  c ← self_ id;
  let ctx := default "" (_current_context c) in    (* [self._current_context or ""] *)
  context_id ← _context_id ctx;
  match context_id with
  | Some id => set_self (set__current_context_id (Some id))
  | None =>
      with_connect (
        lastrowid ← execute "insert into context (context) values (?)" "context"
                            (insert_context ctx);
        set_self (set__current_context_id (Some lastrowid)))
  end.

Definition mixed_lines : exn :=
  CoverageException [Text "Can't add line measurements to existing branch data"].
Definition mixed_arcs : exn :=
  CoverageException [Text "Can't add branch measurements to existing line data"].

Definition _choose_lines_or_arcs (lines arcs : bool) : M St unit :=
  (if lines || arcs then mret tt else raise (Exn "AssertionError" []));;
  (if negb (lines && arcs) then mret tt else raise (Exn "AssertionError" []));;
  c ← self_ id;
  (if lines && _has_arcs c then raise mixed_lines else mret tt);;
  (if arcs && _has_lines c then raise mixed_arcs else mret tt);;
  if negb (_has_arcs c) && negb (_has_lines c) then
    set_self (set__has_lines lines);;
    set_self (set__has_arcs arcs);;
    with_connect (
      execute "insert into meta (key, value) values (?, ?)" "meta"
              (insert_meta ("has_arcs", str_int_bool arcs)))
  else mret tt.

(** [self._current_context_id] as a statement parameter.  [None] would be
    SQL's [NULL]; [_set_context_id] has set an id wherever it is read. *)
Definition current_context_id : M St Z :=
  c ← self_ id;
  match _current_context_id c with
  | Some id => mret id
  | None => raise (Exn "TypeError" [Text "context id is None"])
  end.

(** [file_id] as a statement parameter: [_file_id(filename, add=True)] has
    given an id. *)
Definition the_file_id (path : string) : M St Z :=
  file_id ← _file_id path true;
  match file_id with
  | Some id => mret id
  | None => raise (Exn "TypeError" [Text "file id is None"])
  end.

Definition add_lines (line_data : list (string * list N)) : M St unit :=
  _start_using;;
  _choose_lines_or_arcs true false;;
  match line_data with
  | [] => mret tt
  | _ =>
    with_connect (
      _set_context_id;;
      for_each line_data (fun '(path, linenos) =>
        let linemap := Numbits.nums_to_numbits linenos in
        file_id ← the_file_id path;
        context_id ← current_context_id;
        existing ← execute
          "select numbits from line_bits where file_id = ? and context_id = ?" "line_bits"
          (select_numbits file_id context_id);
        let linemap :=
          match existing with
          | [] => linemap
          | row :: _ => Numbits.numbits_union linemap row
          end in
        execute
          "insert or replace into line_bits  (file_id, context_id, numbits) values (?, ?, ?)"
          "line_bits"
          (insert_or_replace_line_bits (file_id, context_id, linemap))))
  end.

Definition add_arcs (arc_data : list (string * list (Z * Z))) : M St unit :=
  _start_using;;
  _choose_lines_or_arcs false true;;
  match arc_data with
  | [] => mret tt
  | _ =>
    with_connect (
      _set_context_id;;
      for_each arc_data (fun '(path, arcs) =>
        file_id ← the_file_id path;
        context_id ← current_context_id;
        let data := map (fun '(fromno, tono) => (file_id, context_id, fromno, tono)) arcs in
        executemany
          "insert or ignore into arc (file_id, context_id, fromno, tono) values (?, ?, ?, ?)"
          "arc" insert_or_ignore_arc data))
  end.

Definition file_tracer (path : string) : M St (option string) :=
  _start_using;;
  with_connect (
    file_id ← _file_id path false;
    match file_id with
    | None => mret None
    | Some file_id =>
        row ← execute_one "select tracer from tracer where file_id = ?" "tracer"
                          (select_tracer file_id);
        match row with
        | Some tracer => mret (Some tracer)      (* [row[0] or ""] *)
        | None => mret (Some "")    (* File was measured, but no tracer associated. *)
        end
    end).

Definition add_file_tracers (file_tracers : list (string * string)) : M St unit :=
  match file_tracers with
  | [] => mret tt
  | _ =>
    _start_using;;
    with_connect (
      for_each file_tracers (fun '(path, plugin_name) =>
        file_id ← _file_id path false;
        match file_id with
        | None => raise (CoverageException
            [Text "Can't add file tracer data for unmeasured file '"; Plain path; Text "'"])
        | Some file_id =>
            existing_plugin ← file_tracer path;
            match existing_plugin with
            | Some (String a e) =>
                let existing_plugin := String a e in
                if decide (existing_plugin ≠ plugin_name) then
                  raise (CoverageException
                    [Text "Conflicting file tracer name for '"; Plain path; Text "': ";
                     Repr existing_plugin; Text " vs "; Repr plugin_name])
                else mret tt
            | _ =>
                if decide (plugin_name = "") then mret tt
                else execute "insert into tracer (file_id, tracer) values (?, ?)" "tracer"
                             (insert_tracer (file_id, plugin_name))
            end
        end))
  end.

Definition touch_files (filenames : list string) (plugin_name : string) : M St unit :=
  _start_using;;
  with_connect (      (* Use this to get one transaction. *)
    c ← self_ id;
    (if negb (_has_arcs c) && negb (_has_lines c)
     then raise (CoverageException [Text "Can't touch files in an empty CoverageData"])
     else mret tt);;
    for_each filenames (fun path =>
      _file_id path true;;
      if decide (plugin_name = "") then mret tt
      else
        (* Set the tracer for this file *)
        add_file_tracers [(path, plugin_name)])).

Definition touch_file (path : string) (plugin_name : string) : M St unit :=
  touch_files [path] plugin_name.

Definition measured_contexts : M St (list string) :=
  _start_using;;
  with_connect (
    execute "select distinct(context) from context" "context" select_distinct_context).

Definition set_query_context (ctx : string) : M St unit :=
  _start_using;;
  with_connect (
    ids ← execute "select id from context where context = ?" "context"
                  (select_context_id ctx);
    set_self (set__query_context_ids (Some ids))).

Definition arcs (path : string) : M St (option (list (Z * Z))) :=
  _start_using;;
  with_connect (
    file_id ← _file_id path false;
    match file_id with
    | None => mret None
    | Some file_id =>
        c ← self_ id;
        arcs ← execute "select distinct fromno, tono from arc where file_id = ?" "arc"
                       (select_distinct_arcs file_id (_query_context_ids c));
        mret (Some arcs)
    end).

(** [lines(filename)].  A Python set becomes the list of its elements
    without repetition; the order of the list is not part of the result. *)
Definition lines (path : string) : M St (option (list Z)) :=
  _start_using;;
  b ← has_arcs;
  r ← (if b : bool then arcs path else mret None);
  match r with
  | Some arcs =>
      let all_lines := arcs ≫= (fun '(fromno, tono) => [fromno; tono]) in
      mret (Some (remove_dups (filter (fun l : Z => 0 < l) all_lines)))
  | None =>
      with_connect (
        file_id ← _file_id path false;
        match file_id with
        | None => mret None
        | Some file_id =>
            c ← self_ id;
            bitmaps ← execute "select numbits from line_bits where file_id = ?" "line_bits"
                              (select_file_numbits file_id (_query_context_ids c));
            mret (Some (remove_dups
                          (Z.of_N <$> (bitmaps ≫= Numbits.numbits_to_nums))))
        end)
  end.

(** [dumps()] *)
Definition dumps : M St bytes :=
  with_connect (
    w ← world_ id;
    text ← dump;
    mret (122%N :: zlib_compress w (encode_utf8 w text))).

Definition bad_blob (data : bytes) : exn :=
  CoverageException
    [Text "Unrecognized serialization: "; ReprBytes (take 40 data); Text " (head of ";
     Str (Z.of_nat (length data)); Text " bytes)"].

(** [loads(data)] *)
Definition loads (data : bytes) : M St unit :=
  (if decide (take 1 data ≠ [122%N]) then raise (bad_blob data) else mret tt);;
  w ← world_ id;
  compressed ← match zlib_decompress w (drop 1 data) with
               | Some b => mret b
               | None => raise (Exn "zlib.error" [])
               end;
  script ← match decode_utf8 w compressed with
           | Some s => mret s
           | None => raise (Exn "UnicodeDecodeError" [])
           end;
  c ← self_ id;
  set_self (set__dbs (Some {| filename := _filename c; con := None |}));;
  with_db (executescript script);;
  _read_db;;
  set_self (set__have_used true).

(** ** [update] *)

(** The state of [self.update(other_data, aliases)]: the world, [self] and
    [other_data], two handles. *)
Definition St2 : Type := World * (CoverageData * CoverageData).

Definition on_self {A} (m : M St A) : M St2 A := fun s =>
  let '(r, (w, c)) := m (s.1, s.2.1) in (r, (w, (c, s.2.2))).
Definition on_other {A} (m : M St A) : M St2 A := fun s =>
  let '(r, (w, c)) := m (s.1, s.2.2) in (r, (w, (s.2.1, c))).

(** [[f x for x in l]] with an [f] that may raise *)
Fixpoint map_M {S A B} (f : A -> M S B) (l : list A) : M S (list B) :=
  match l with
  | [] => mret []
  | x :: r => y ← f x; ys ← map_M f r; mret (y :: ys)
  end.

(** What [update] collects from [other_data]. *)
Record Collected := {
  col_files : list (string * string);               (* path: aliased path *)
  col_contexts : list string;
  col_arcs : list (string * string * Z * Z);
  col_lines : list ((string * string) * bytes);     (* (aliased path, context): numbits *)
  col_tracers : list (string * string);             (* aliased path: tracer *)
}.

(** The block [with other_data._connect() as conn] of [update]. *)
Definition update_collect (aliases : string -> string) : M St Collected :=
  with_connect (
    (* Get files data. *)
    cur ← execute "select path from file" "file" select_path;
    let files := dict_of (map (fun path => (path, aliases path)) cur) in
    (* Get contexts data. *)
    contexts ← execute "select context from context" "context" select_context;
    (* Get arc data. *)
    cur ← execute "select file.path, context.context, arc.fromno, arc.tono from arc inner join file on file.id = arc.file_id inner join context on context.id = arc.context_id"
                  "arc" select_arcs_joined;
    arcs ← map_M (fun '(path, ctx, fromno, tono) =>
                    p ← dict_index path files; mret (p, ctx, fromno, tono)) cur;
    (* Get line data. *)
    cur ← execute "select file.path, context.context, line_bits.numbits from line_bits inner join file on file.id = line_bits.file_id inner join context on context.id = line_bits.context_id"
                  "line_bits" select_line_bits_joined;
    items ← map_M (fun '(path, ctx, numbits) =>
                     p ← dict_index path files; mret ((p, ctx), numbits)) cur;
    let lines := dict_of items in
    (* Get tracer data. *)
    cur ← execute "select file.path, tracer from tracer inner join file on file.id = tracer.file_id"
                  "tracer" select_tracers_joined;
    items ← map_M (fun '(path, tracer) => p ← dict_index path files; mret (p, tracer)) cur;
    let tracers := dict_of items in
    mret {| col_files := files; col_contexts := contexts; col_arcs := arcs;
            col_lines := lines; col_tracers := tracers |}).

(** The block [with self._connect() as conn] of [update]. *)
Definition update_merge (aliases : string -> string) (o : Collected) : M St unit :=
  with_connect (
    (* Get all tracers in the DB. Files not in the tracers are assumed
       to have an empty string tracer. *)
    paths ← execute "select path from file" "file" select_path;
    let this_tracers := dict_of (map (fun path => (path, "")) paths) in
    cur ← execute "select file.path, tracer from tracer inner join file on file.id = tracer.file_id"
                  "tracer" select_tracers_joined;
    let this_tracers :=
      dict_update this_tracers
        (dict_of (map (fun '(path, tracer) => (aliases path, tracer)) cur)) in
    (* Create all file and context rows in the DB. *)
    executemany_gen "insert or ignore into file (path) values (?)" "file"
                    insert_or_ignore_file (Some <$> (col_files o).*2);;
    cur ← execute "select id, path from file" "file" select_id_path;
    let file_ids := dict_of (map (fun '(id, path) => (path, id)) cur) in
    executemany_gen "insert or ignore into context (context) values (?)" "context"
                    insert_or_ignore_context (Some <$> col_contexts o);;
    cur ← execute "select id, context from context" "context" select_id_context;
    let context_ids := dict_of (map (fun '(id, ctx) => (ctx, id)) cur) in
    (* Prepare tracers and fail, if a conflict is found. *)
    tracer_map ← foldl (fun (acc : M St (list (string * string))) path =>
        tracer_map ← acc;
        let this_tracer := dict_get path this_tracers in
        let other_tracer := default "" (dict_get path (col_tracers o)) in
        (* If there is no tracer, there is always the None tracer. *)
        match this_tracer with
        | Some this_tracer =>
            if decide (this_tracer ≠ other_tracer) then
              raise (CoverageException
                [Text "Conflicting file tracer name for '"; Plain path; Text "': ";
                 Repr this_tracer; Text " vs "; Repr other_tracer])
            else mret (dict_set path other_tracer tracer_map)
        | None => mret (dict_set path other_tracer tracer_map)
        end) (mret []) (col_files o).*2;
    (* Prepare arc and line rows to be inserted by converting the file
       and context strings with integer ids. *)
    let arc_rows :=
      map (fun '(path, ctx, fromno, tono) =>
             file_id ← dict_get path file_ids;
             context_id ← dict_get ctx context_ids;
             Some (file_id, context_id, fromno, tono)) (col_arcs o) in
    (* Get line data. *)
    cur ← execute "select file.path, context.context, line_bits.numbits from line_bits inner join file on file.id = line_bits.file_id inner join context on context.id = line_bits.context_id"
                  "line_bits" select_line_bits_joined;
    let lines :=
      foldl (fun lines '(path, ctx, numbits) =>
               let key := (aliases path, ctx) in
               let numbits :=
                 match dict_get key lines with
                 | Some theirs => Numbits.numbits_union theirs numbits
                 | None => numbits
                 end in
               dict_set key numbits lines) (col_lines o) cur in
    (match col_arcs o with
     | [] => mret tt
     | _ =>
         _choose_lines_or_arcs false true;;
         (* Write the combined data. *)
         executemany_gen
           "insert or ignore into arc (file_id, context_id, fromno, tono) values (?, ?, ?, ?)"
           "arc" insert_or_ignore_arc arc_rows
     end);;
    (match lines with
     | [] => mret tt
     | _ =>
         _choose_lines_or_arcs true false;;
         execute "delete from line_bits" "line_bits" delete_line_bits;;
         rows ← map_M (fun '((path, ctx), numbits) =>
                         file_id ← dict_index path file_ids;
                         context_id ← dict_index ctx context_ids;
                         mret (file_id, context_id, numbits)) lines;
         executemany
           "insert into line_bits (file_id, context_id, numbits) values (?, ?, ?)"
           "line_bits" insert_line_bits rows
     end);;
    executemany_gen "insert or ignore into tracer (file_id, tracer) values (?, ?)" "tracer"
      insert_or_ignore_tracer
      (map (fun '(path, tracer) => file_id ← dict_get path file_ids; Some (file_id, tracer))
           tracer_map)).

(** [self.update(other_data, aliases)]; [aliases] is the [map] method of the
    [PathAliases] given, and [None] stands for the empty [PathAliases()],
    which maps every path to itself. *)
Definition update (aliases : option (string -> string)) : M St2 unit :=
  s ← get;
  let '(self, other_data) := s.2 in
  (if _has_lines self && _has_arcs other_data
   then raise (CoverageException [Text "Can't combine arc data with line data"])
   else mret tt);;
  (if _has_arcs self && _has_lines other_data
   then raise (CoverageException [Text "Can't combine line data with arc data"])
   else mret tt);;
  let aliases := default id aliases in
  (* Force the database we're writing to to exist before we start nesting
     contexts. *)
  on_self _start_using;;
  (* Collector for all arcs, lines and tracers *)
  on_other read;;
  o ← on_other (update_collect aliases);
  on_self (update_merge aliases o);;
  (* Update all internal cache data. *)
  on_self _reset;;
  on_self read.

(** ** [re.search] and the [REGEXP] function *)

(** [def _regexp(text, pattern): return re.search(text, pattern) is not None]
    [search] is [re.search] of the interpreter, with the regular expression
    as its first argument and the string searched as its second; [None]
    stands for a call that raises. *)
Definition _regexp (search : string -> string -> option bool) (text pattern : string)
  : option bool :=
  search text pattern.

(** SQLite's operator: [X regexp Y] calls the function registered as
    [REGEXP] as [regexp(Y, X)]. *)
Definition regexp_operator (search : string -> string -> option bool) (X Y : string)
  : option bool :=
  _regexp search Y X.

(** [X regexp ? or X regexp ? ...] on one value [X]: SQLite evaluates the
    operands of [or] from the left and stops at the first that is true;
    [None] when a call of the function raises before that. *)
Fixpoint regexp_any (search : string -> string -> option bool) (X : string)
    (patterns : list string) : option bool :=
  match patterns with
  | [] => Some false
  | p :: rest =>
      match regexp_operator search X p with
      | Some true => Some true
      | Some false => regexp_any search X rest
      | None => None
      end
  end.

(** [select id from context where context regexp ? or context regexp ? ...];
    a call of [_regexp] that raises fails the statement. *)
Definition select_context_regexp (search : string -> string -> option bool)
    (patterns : list string) : stmt (list Z) := fun d =>
  match mapM (fun r : Z * string =>
                b ← regexp_any search r.2 patterns; Some (r, b)) (context d) with
  | Some rows => SqlOk (filter (fun rb => rb.2 = true) rows).*1.*1 d
  | None => SqlError "user-defined function raised exception"
  end.

Definition set_query_contexts (contexts : list string) : M St unit :=
  _start_using;;
  match contexts with
  | [] => set_self (set__query_context_ids None)
  | _ =>
      with_connect (
        w ← world_ id;
        ids ← execute ("select id from context where " +:+
                       String.concat " or " (replicate (length contexts) "context regexp ?"))
                      "context" (select_context_regexp (re_search w) contexts);
        set_self (set__query_context_ids (Some ids)))
  end.

(** *** The meaning of a fragment of the regular expressions *)

Module Re.

(** A part of Python's [re] syntax: ordinary characters, [.] (any character
    but a newline) and a postfix [*].  A pattern with any other special
    character, or one that [re] rejects ([*] with nothing to repeat), is
    outside the fragment: [parse] gives [None]. *)
Inductive atom := AnyChar | Lit (c : ascii).

Definition item : Type := atom * bool.     (* the atom, and whether [*] follows *)

Definition special (c : ascii) : bool :=
  bool_decide (c ∈ list_ascii_of_string "\^$+?{}[]|()").

Fixpoint parse_items (l : list ascii) : option (list item) :=
  match l with
  | [] => Some []
  | c :: r =>
      if special c || bool_decide (c = "*"%char) then None
      else
        let a := if decide (c = "."%char) then AnyChar else Lit c in
        match r with
        | "*"%char :: r' => (fun re => (a, true) :: re) <$> parse_items r'
        | _ => (fun re => (a, false) :: re) <$> parse_items r
        end
  end.

Definition parse (pattern : string) : option (list item) :=
  parse_items (list_ascii_of_string pattern).

Definition atom_matches (a : atom) (c : ascii) : bool :=
  match a with
  | AnyChar => bool_decide (c ≠ "010"%char)
  | Lit c' => bool_decide (c = c')
  end.

(** Does the pattern match at the start of [s]? *)
Fixpoint match_here (re : list item) (s : list ascii) : bool :=
  match re with
  | [] => true
  | (a, false) :: re' =>
      match s with
      | c :: s' => atom_matches a c && match_here re' s'
      | [] => false
      end
  | (a, true) :: re' =>
      (fix star (s : list ascii) : bool :=
         match_here re' s ||
         match s with
         | c :: s' => atom_matches a c && star s'
         | [] => false
         end) s
  end.

(** Does the pattern match at some position of [s]? *)
Fixpoint search_items (re : list item) (s : list ascii) : bool :=
  match_here re s ||
  match s with
  | _ :: s' => search_items re s'
  | [] => false
  end.

(** A search function for the patterns of the fragment alone: it stands in
    for [re.search] in the examples. *)
Definition search (pattern string : string) : option bool :=
  re ← parse pattern;
  Some (search_items re (list_ascii_of_string string)).

(** The strings a pattern matches, from first to last character. *)
Inductive matches : list item -> list ascii -> Prop :=
| matches_nil : matches [] []
| matches_one a c re s :
    atom_matches a c = true -> matches re s -> matches ((a, false) :: re) (c :: s)
| matches_star_stop a re s :
    matches re s -> matches ((a, true) :: re) s
| matches_star_more a c re s :
    atom_matches a c = true -> matches ((a, true) :: re) s ->
    matches ((a, true) :: re) (c :: s).

(** [pattern], of the fragment, has a search match somewhere in [string]. *)
Definition has_match (pattern string : string) : Prop :=
  ∃ re before found after,
    parse pattern = Some re ∧
    list_ascii_of_string string = before ++ found ++ after ∧
    matches re found.

(** A search function that gives the patterns of the fragment their
    meaning, as [re.search] does; on the other patterns it is free. *)
Definition agrees (search : string -> string -> option bool) : Prop :=
  ∀ pattern string, is_Some (parse pattern) →
    ∃ b, search pattern string = Some b ∧ (b = true ↔ has_match pattern string).

End Re.

(** ** [coverage/context.py] *)

Section context_switchers.

(** A frame of the interpreter; a switcher takes a frame and returns a
    context label or [None]. *)
Context {Frame : Type}.

(** The combiner for multiple context switchers. *)
Fixpoint should_start_context (context_switchers : list (Frame -> option string))
    (frame : Frame) : option string :=
  match context_switchers with
  | [] => None
  | switcher :: rest =>
      match switcher frame with
      | Some new_context => Some new_context
      | None => should_start_context rest frame
      end
  end.

Definition combine_context_switchers (context_switchers : list (Frame -> option string))
    : option (Frame -> option string) :=
  match context_switchers with
  | [] => None
  | [switcher] => Some switcher
  | _ => Some (should_start_context context_switchers)
  end.

End context_switchers.

(** ** [CoverageData]: truth value, file names and contexts by line *)

(** [select * from file limit 1] *)
Definition select_file_limit_1 : stmt (list (Z * string)) :=
  query (fun d => take 1 (file d)).

(** [__nonzero__] ([__bool__]).  [except CoverageException] catches the
    exceptions of that class and lets the others through. *)
Definition __nonzero__ : M St bool :=
  c ← self_ id;
  w ← world_ id;
  if (if _dbs c is None then true else false) &&
     negb (bool_decide (is_Some (fs w !! _filename c)))
  then mret false
  else
    try_except
      (with_connect (
         rows ← execute "select * from file limit 1" "file" select_file_limit_1;
         mret (if rows is [] then false else true)))       (* [bool(list(rows))] *)
      (fun exc =>
         let 'Exn cls _ := exc in
         if decide (cls = "CoverageException") then mret false else raise exc).

Definition base_filename : M St string := self_ _basename.

Definition data_filename : M St string := self_ _filename.

(** [if context not in lineno_contexts_map[lineno]:
         lineno_contexts_map[lineno].append(context)]
    on a [defaultdict(list)]: reading a missing key enters it with []. *)
Definition append_context_once (lineno : Z) (ctx : string)
    (lineno_contexts_map : list (Z * list string)) : list (Z * list string) :=
  let contexts := default [] (dict_get lineno lineno_contexts_map) in
  dict_set lineno (if decide (ctx ∈ contexts) then contexts else contexts ++ [ctx])
           lineno_contexts_map.

(** [lineno_contexts_map[lineno].append(context)] *)
Definition append_context (lineno : Z) (ctx : string)
    (lineno_contexts_map : list (Z * list string)) : list (Z * list string) :=
  dict_set lineno (default [] (dict_get lineno lineno_contexts_map) ++ [ctx])
           lineno_contexts_map.

(** [select arc.fromno, arc.tono, context.context from arc, context
     where arc.file_id = ? and arc.context_id = context.id]
    [+ " and arc.context_id in (?, ...)"] *)
Definition select_arc_contexts (file_id : Z) (ids : option (list Z))
  : stmt (list (Z * Z * string)) :=
  query (fun d =>
    r ← filter (fun r => r.1.1.1 = file_id ∧ in_query_contexts ids r.1.1.2) (arc d);
    c ← context_of_id d r.1.1.2;
    [(r.1.2, r.2, c)]).

(** [select l.numbits, c.context from line_bits l, context c
     where l.context_id = c.id and file_id = ?]
    [+ " and l.context_id in (?, ...)"] *)
Definition select_numbits_contexts (file_id : Z) (ids : option (list Z))
  : stmt (list (bytes * string)) :=
  query (fun d =>
    r ← filter (fun r => r.1.1 = file_id ∧ in_query_contexts ids r.1.2) (line_bits d);
    c ← context_of_id d r.1.2;
    [(r.2, c)]).

(** [contexts_by_lineno(filename)]: the [defaultdict] returned, as the list
    of its items in insertion order. *)
Definition contexts_by_lineno (path : string) : M St (list (Z * list string)) :=
  _start_using;;
  with_connect (
    file_id ← _file_id path false;
    match file_id with
    | None => mret []
    | Some file_id =>
        b ← has_arcs;
        c ← self_ id;
        if b : bool then
          rows ← execute "select arc.fromno, arc.tono, context.context from arc, context where arc.file_id = ? and arc.context_id = context.id"
                         "arc" (select_arc_contexts file_id (_query_context_ids c));
          mret (foldl (fun m '(fromno, tono, ctx) =>
                         append_context_once tono ctx (append_context_once fromno ctx m))
                      [] rows)
        else
          rows ← execute "select l.numbits, c.context from line_bits l, context c where l.context_id = c.id and file_id = ?"
                         "line_bits" (select_numbits_contexts file_id (_query_context_ids c));
          mret (foldl (fun m '(numbits, ctx) =>
                         foldl (fun m lineno => append_context (Z.of_N lineno) ctx m) m
                               (Numbits.numbits_to_nums numbits))
                      [] rows)
    end).

(** ** States of a connected handle *)

(** The tables the connection of the handle holds, if any. *)
Definition tables_of (s : St) : option Database :=
  db ← _dbs s.2;
  match db_content s.1 db with
  | Tables d => Some d
  | _ => None
  end.

(** The state of a handle connected to a database that holds [x]: [c] gives
    the other attributes of the handle and [w] the rest of the world. *)
Definition mkc (w : World) (c : CoverageData) (x : FileContent) : St :=
  (set_fs (if decide (_filename c = memory) then fs w
           else <[_filename c := x]> (fs w)) w,
   set__dbs (Some {| filename := _filename c;
                     con := if decide (_filename c = memory) then Some x else None |}) c).

Definition mk (w : World) (c : CoverageData) (d : Database) : St := mkc w c (Tables d).

(** What [_create_db] writes. *)
Definition created_db (w : World) : Database :=
  {| coverage_schema := [SCHEMA_VERSION];
     meta := [("sys_argv", sys_argv w); ("version", version w); ("when", now w)];
     file := []; context := []; line_bits := []; arc := []; tracer := [] |}.

(** A handle that has not used its data file yet (new, or reset): its next
    use erases the file.  With [no_disk] no file named [":memory:"] lies in
    the working directory. *)
Definition unused (w : World) (c : CoverageData) : Prop :=
  _have_used c = false ∧
  (_no_disk c = true → _filename c = memory ∧ fs w !! memory = None).

(** The state [(w', c')] of a handle right after the [_start_using()] that
    erased its data file, from the state [(w, c)]. *)
Record erased_from (w : World) (c : CoverageData) (w' : World) (c' : CoverageData)
  : Prop := {
  ef_dbs : _dbs c' = None;
  ef_file_map : _file_map c' = [];
  ef_have_used : _have_used c' = true;
  ef_pid : _pid c' = os_getpid w';
  ef_context_id : _current_context_id c' = None;
  ef_gone : fs w' !! _filename c' = None;
  ef_has_lines : _has_lines c' = _has_lines c;
  ef_has_arcs : _has_arcs c' = _has_arcs c;
  ef_context : _current_context c' = _current_context c;
  ef_query : _query_context_ids c' = _query_context_ids c;
  ef_no_disk : _no_disk c' = _no_disk c;
  ef_world : w' = set_fs (fs w') w;
}.

(** A handle in use in this process: [_start_using] has nothing to do. *)
Definition in_use (w : World) (c : CoverageData) : Prop :=
  _have_used c = true ∧ _pid c = os_getpid w.

(** The [arc] table after [insert or ignore] of each row of [rows]. *)
Definition arcs_added (t rows : list (Z * Z * Z * Z)) : list (Z * Z * Z * Z) :=
  foldl (fun t r => if decide (r ∈ t) then t else t ++ [r]) t rows.

(** The handle after [_reset()] and [_have_used = True]. *)
Definition started (c : CoverageData) : CoverageData :=
  set__have_used true
    (set__current_context_id None (set__have_used false (set__file_map [] (set__dbs None c)))).

(** The world without the file at [path]. *)
Definition without_file (path : string) (w : World) : World :=
  set_fs (delete path (fs w)) w.

(** The handle after [_read_db()] has read the tables [d]: the mode flags
    follow the [has_arcs] row and the file ids fill the cache. *)
Definition after_read_db (d : Database) (c : CoverageData) : CoverageData :=
  let c :=
    foldl (fun c v => match py_int v with
                      | Some n => set__has_lines (negb (bool_decide (n ≠ 0)))
                                    (set__has_arcs (bool_decide (n ≠ 0)) c)
                      | None => c
                      end)
          c (filter (fun kv => kv.1 = "has_arcs") (meta d)).*2 in
  foldl (fun c r => set__file_map (dict_set r.2 r.1 (_file_map c)) c) c (file d).

(** ** Triples *)

(** From a state in [P], the computation returns in a state that satisfies
    [Q] with its value, or raises in a state that satisfies [E] with its
    exception. *)
Definition hoare {S A} (P : S -> Prop) (m : M S A)
    (Q : A -> S -> Prop) (E : exn -> S -> Prop) : Prop :=
  ∀ s, P s → match m s with
             | (Ok a, s') => Q a s'
             | (Raise e, s') => E e s'
             end.

(** The bad-blob error of [loads]. *)
Definition is_bad_blob (e : exn) : Prop := ∃ data, e = bad_blob data.

(** The computation raises no bad-blob error. *)
Definition no_bad_blob {A} (m : M St A) : Prop :=
  hoare (fun _ => True) m (fun _ _ => True) (fun e _ => ¬ is_bad_blob e).

(** ** A world and handles for the examples *)

(** A world with no file, whose external functions are simple stand-ins. *)
Definition example_world : World :=
  {| fs := ∅; os_getpid := 100; os_path_abspath := fun s => "/cwd/" +:+ s;
     default_suffix := fun _ => "host.100.000001"; glob_glob := fun _ _ => [];
     sys_argv := "['cov']"; version := "6.0"; now := "2021-01-01 00:00:00";
     zlib_compress := fun b => b; zlib_decompress := Some;
     encode_utf8 := fun s => map N_of_ascii (list_ascii_of_string s);
     decode_utf8 := fun b => Some (string_of_list_ascii (map ascii_of_N b));
     sqlite_iterdump := fun _ => []; sqlite_executescript := fun _ c => inl c;
     re_search := Re.search |}.

(** [CoverageData()] in that world. *)
Definition example_handle : CoverageData := __init__ None SuffixNone false example_world.

(** A [PathAliases] that maps the directories [/ci1/] and [/ci2/] to
    [/build/]. *)
Definition example_aliases (path : string) : string :=
  if String.prefix "/ci1/" path || String.prefix "/ci2/" path
  then "/build/" +:+ substring 5 (String.length path - 5) path
  else path.

(** Store Y: the lines 1 of [/ci1/a.py] and 2 of [/ci2/a.py], in the default
    context.  Store X: the line 5 of [/build/a.py].  Then
    [X.update(Y, aliases)] and [X.lines("/build/a.py")]. *)
Definition example_merge : Res (option (list Z)) * St2 :=
  let y0 := __init__ (Some "y") SuffixNone false example_world in
  let x0 := __init__ (Some "x") SuffixNone false example_world in
  let '(_, (w1, y1)) :=
    add_lines [("/ci1/a.py", [1%N]); ("/ci2/a.py", [2%N])] (example_world, y0) in
  let '(_, (w2, x1)) := add_lines [("/build/a.py", [5%N])] (w1, x0) in
  (update (Some example_aliases);; on_self (lines "/build/a.py")) (w2, (x1, y1)).

(** The scenario of the spec: store X has the lines 1, 2 of [/build/a.py],
    store Y the lines 2, 3 of [/ci1/a.py]. *)
Definition example_merge_spec : Res (option (list Z)) * St2 :=
  let y0 := __init__ (Some "y") SuffixNone false example_world in
  let x0 := __init__ (Some "x") SuffixNone false example_world in
  let '(_, (w1, y1)) := add_lines [("/ci1/a.py", [2%N; 3%N])] (example_world, y0) in
  let '(_, (w2, x1)) := add_lines [("/build/a.py", [1%N; 2%N])] (w1, x0) in
  (update (Some example_aliases);; on_self (lines "/build/a.py")) (w2, (x1, y1)).

(** The same collision in arc mode: store Y has the arc (1, 2) of
    [/ci1/a.py] and the arc (2, 3) of [/ci2/a.py], store X the arc (5, 6) of
    [/build/a.py]. *)
Definition example_merge_arcs : Res (option (list (Z * Z))) * St2 :=
  let y0 := __init__ (Some "y") SuffixNone false example_world in
  let x0 := __init__ (Some "x") SuffixNone false example_world in
  let '(_, (w1, y1)) :=
    add_arcs [("/ci1/a.py", [(1, 2)]); ("/ci2/a.py", [(2, 3)])] (example_world, y0) in
  let '(_, (w2, x1)) := add_arcs [("/build/a.py", [(5, 6)])] (w1, x0) in
  (update (Some example_aliases);; on_self (arcs "/build/a.py")) (w2, (x1, y1)).

(** ** Sequences of writer operations *)

Inductive WriterOp :=
| AddLines (line_data : list (string * list N))
| AddArcs (arc_data : list (string * list (Z * Z)))
| AddFileTracers (file_tracers : list (string * string))
| TouchFiles (filenames : list string) (plugin_name : string)
| SetContext (ctx : option string).

Definition writer_op (op : WriterOp) : M St unit :=
  match op with
  | AddLines line_data => add_lines line_data
  | AddArcs arc_data => add_arcs arc_data
  | AddFileTracers file_tracers => add_file_tracers file_tracers
  | TouchFiles filenames plugin_name => touch_files filenames plugin_name
  | SetContext ctx => set_context ctx
  end.

(** The calls of [ops] one after the other, each from the state the call
    before it left, whether it returned or raised. *)
Fixpoint run_ops (ops : list WriterOp) (s : St) : St :=
  match ops with
  | [] => s
  | op :: rest => run_ops rest (writer_op op s).2
  end.

(** A database holds lines only under the lines flag and arcs only under the
    arcs flag. *)
Definition data_ok (c : CoverageData) (x : FileContent) : Prop :=
  match x with
  | Tables d =>
      (line_bits d ≠ [] → _has_lines c = true) ∧ (arc d ≠ [] → _has_arcs c = true)
  | _ => True
  end.

(** What the handle is connected to is [data_ok]; a handle in use that is
    not connected has no data file (or is in memory). *)
Definition live (s : St) : Prop :=
  match _dbs s.2 with
  | Some db => data_ok s.2 (db_content s.1 db)
  | None => fs s.1 !! _filename s.2 = None ∨ _filename s.2 = memory
  end.

(** The invariant of a store between two operations; [l] and [a] are flags
    that were set before and must still be. *)
Definition store_inv (l a : bool) (s : St) : Prop :=
  (_no_disk s.2 = true → _filename s.2 = memory) ∧
  ¬ (_has_lines s.2 = true ∧ _has_arcs s.2 = true) ∧
  (l = true → _has_lines s.2 = true) ∧ (a = true → _has_arcs s.2 = true) ∧
  (_have_used s.2 = true → _pid s.2 = os_getpid s.1 → live s).

(** The invariant inside an operation, after [_start_using()]. *)
Definition using_inv (l a : bool) (s : St) : Prop :=
  (_no_disk s.2 = true → _filename s.2 = memory) ∧
  ¬ (_has_lines s.2 = true ∧ _has_arcs s.2 = true) ∧
  (l = true → _has_lines s.2 = true) ∧ (a = true → _has_arcs s.2 = true) ∧
  _have_used s.2 = true ∧ _pid s.2 = os_getpid s.1 ∧ live s.

(** The attributes of the handle the invariant reads, [_dbs] apart. *)
Definition core (c : CoverageData) : bool * string * bool * bool * bool * Z :=
  (_no_disk c, _filename c, _has_lines c, _has_arcs c, _have_used c, _pid c).

(** A statement adds line rows only under [l] and arc rows only under [a]. *)
Definition stmt_keeps {A} (l a : bool) (st : stmt A) : Prop :=
  ∀ d r d', st d = SqlOk r d' →
    (line_bits d' ≠ [] → line_bits d ≠ [] ∨ l = true) ∧
    (arc d' ≠ [] → arc d ≠ [] ∨ a = true).

(** The computation keeps [using_inv], returning or raising. *)
Definition keeps {A} (l a : bool) (m : M St A) : Prop :=
  hoare (using_inv l a) m (fun _ => using_inv l a) (fun _ => using_inv l a).

(** The invariant of a store between two writer operations: the handle is in
    use, or it is not connected yet. *)
Definition op_inv (l a : bool) (s : St) : Prop :=
  using_inv l a s ∨ (store_inv l a s ∧ _have_used s.2 = false ∧ _dbs s.2 = None).


(** A data file of this version: the line 1 of [/cwd/a.py] under the context
    [test_a]. *)
Definition example_disk_db : Database :=
  {| coverage_schema := [SCHEMA_VERSION]; meta := [("has_arcs", "0")];
     file := [(1, "/cwd/a.py")]; context := [(1, "test_a")];
     line_bits := [(1, 1, [2%N])]; arc := []; tracer := [] |}.

(** [example_world] with [x] at the path of the data file of
    [example_handle]. *)
Definition example_world_with (x : FileContent) : World :=
  set_fs (<[_filename example_handle := x]> ∅) example_world.
Lemma bind_ok {S A B} (m : M S A) (f : A -> M S B) s a s' :
  m s = (Ok a, s') → (m ≫= f) s = f a s'.
Proof. intros H. unfold mbind, M_bind. by rewrite H. Qed.

Lemma bind_raise {S A B} (m : M S A) (f : A -> M S B) s e s' :
  m s = (Raise e, s') → (m ≫= f) s = (Raise e, s').
Proof. intros H. unfold mbind, M_bind. by rewrite H. Qed.

Lemma bind_assoc {S A B C} (m : M S A) (f : A -> M S B) (g : B -> M S C) s :
  ((m ≫= f) ≫= g) s = (m ≫= (fun x => f x ≫= g)) s.
Proof. unfold mbind, M_bind. by destruct (m s) as [[]]. Qed.

(** One step of a computation whose first action is known by a lemma [L]. *)
Ltac mrw L := rewrite ?bind_assoc; rewrite (bind_ok _ _ _ _ _ L); cbv beta.

(** One step of a computation whose first action is run by the tactic [tac]. *)
Ltac mby tac := rewrite ?bind_assoc; (erewrite bind_ok; [|tac]); cbv beta.

(** One step of a computation whose first action only reads or writes a
    component of the state. *)
Ltac mleaf :=
  rewrite ?bind_assoc;
  lazymatch goal with
  | |- context [(self_ ?g ≫= ?f) ?s] =>
      rewrite (bind_ok (self_ g) f s (g s.2) s eq_refl)
  | |- context [(world_ ?g ≫= ?f) ?s] =>
      rewrite (bind_ok (world_ g) f s (g s.1) s eq_refl)
  | |- context [(set_self ?g ≫= ?f) ?s] =>
      rewrite (bind_ok (set_self g) f s tt (s.1, g s.2) eq_refl)
  | |- context [(set_world ?g ≫= ?f) ?s] =>
      rewrite (bind_ok (set_world g) f s tt (g s.1, s.2) eq_refl)
  | |- context [(mret ?a ≫= ?f) ?s] =>
      rewrite (bind_ok (mret a) f s a s eq_refl)
  | |- context [(raise ?e ≫= ?f) ?s] =>
      rewrite (bind_raise (raise e) f s e s eq_refl)
  end; cbv beta delta [id].

Lemma set_fs_fs w : set_fs (fs w) w = w.
Proof. by destruct w. Qed.

Lemma the_db_some w c db : _dbs c = Some db → the_db (w, c) = (Ok db, (w, c)).
Proof. intros H. unfold the_db. mleaf. simpl. by rewrite H. Qed.

Lemma the_db_mkc w c x :
  the_db (mkc w c x) =
  (Ok {| filename := _filename c;
         con := if decide (_filename c = memory) then Some x else None |}, mkc w c x).
Proof. reflexivity. Qed.

Lemma db_content_mkc w c x :
  db_content (mkc w c x).1
    {| filename := _filename c;
       con := if decide (_filename c = memory) then Some x else None |} = x.
Proof.
  unfold db_content, mkc; simpl.
  destruct (decide (_filename c = memory)); simpl; [done|].
  by rewrite lookup_insert_eq.
Qed.

Lemma tables_of_mk w c d : tables_of (mk w c d) = Some d.
Proof.
  pose proof (db_content_mkc w c (Tables d)) as H.
  unfold tables_of, mk. simpl in *. by rewrite H.
Qed.

Lemma db_store_mkc w c x x' :
  db_store x'
    {| filename := _filename c;
       con := if decide (_filename c = memory) then Some x else None |}
    (mkc w c x) = (Ok tt, mkc w c x').
Proof.
  unfold db_store, mkc; simpl.
  destruct (decide (_filename c = memory)) as [E|E]; simpl.
  - unfold set_self; simpl. by destruct c.
  - unfold set_world; simpl. by rewrite insert_insert_eq.
Qed.

Lemma world_mkc {A} (g : World → A) w c x :
  world_ g (mkc w c x) = (Ok (g (mkc w c x).1), mkc w c x).
Proof. reflexivity. Qed.

Lemma execute_mk {A} sql table (st : stmt A) w c d a d' :
  st d = SqlOk a d' → execute sql table st (mk w c d) = (Ok a, mk w c d').
Proof.
  intros H. unfold execute, mk.
  mrw (the_db_mkc w c (Tables d)). mrw (world_mkc id w c (Tables d)).
  unfold id. rewrite db_content_mkc. simpl. rewrite H.
  by mrw (db_store_mkc w c (Tables d) (Tables d')).
Qed.

Lemma executemany_mk {R} sql table (f : R → stmt unit) rows w c d d' :
  many_pass f (Some <$> rows) d = (d', ManyDone) →
  executemany sql table f rows (mk w c d) = (Ok tt, mk w c d').
Proof.
  intros H. unfold executemany, mk.
  mrw (the_db_mkc w c (Tables d)). mrw (world_mkc id w c (Tables d)).
  unfold id. rewrite db_content_mkc, H. apply db_store_mkc.
Qed.

Lemma pragma_mkc sql w c x :
  (∀ h e, x ≠ Garbage h e) → pragma sql (mkc w c x) = (Ok tt, mkc w c x).
Proof.
  intros Hx. unfold pragma. mrw (the_db_mkc w c x). mrw (world_mkc id w c x).
  unfold id. rewrite db_content_mkc. destruct x as [h e| |]; [by destruct (Hx h e)|done..].
Qed.

Lemma SqliteDb__connect_mkc w c x :
  (∀ h e, x ≠ Garbage h e) → SqliteDb__connect (mkc w c x) = (Ok tt, mkc w c x).
Proof.
  intros Hx. unfold SqliteDb__connect.
  mrw (the_db_mkc w c x). mrw (world_mkc id w c x).
  case_decide as Hm; [done|].
  unfold id. rewrite db_content_mkc.
  mrw (db_store_mkc w c x x). mrw (pragma_mkc "pragma journal_mode=off" w c x Hx).
  by apply pragma_mkc.
Qed.

Lemma SqliteDb__connect_mk w c d : SqliteDb__connect (mk w c d) = (Ok tt, mk w c d).
Proof. by apply SqliteDb__connect_mkc. Qed.

Lemma with_db_mk {A} (body : M St A) w c d : with_db body (mk w c d) = body (mk w c d).
Proof.
  unfold with_db, mk.
  assert (∀ h e, Tables d ≠ Garbage h e) as Hx by done.
  by mrw (SqliteDb__connect_mkc w c _ Hx).
Qed.

Lemma _connect_mk w c d : _connect (mk w c d) = (Ok tt, mk w c d).
Proof. reflexivity. Qed.

Lemma with_connect_mk {A} (body : M St A) w c d :
  with_connect body (mk w c d) = body (mk w c d).
Proof.
  unfold with_connect. rewrite (bind_ok _ _ _ _ _ (_connect_mk w c d)). apply with_db_mk.
Qed.

Lemma set_self_mk f w c d :
  (∀ c, _filename (f c) = _filename c) →
  (∀ x c, f (set__dbs x c) = set__dbs x (f c)) →
  set_self f (mk w c d) = (Ok tt, mk w (f c) d).
Proof.
  intros Hf Hd. unfold set_self, mk, mkc. simpl. by rewrite Hd, Hf.
Qed.

(** Connecting a new [SqliteDb] to a path that holds no file, or to
    [":memory:"]. *)
Lemma SqliteDb__connect_new w c :
  fs w !! _filename c = None ∨ _filename c = memory →
  SqliteDb__connect (w, set__dbs (Some {| filename := _filename c; con := None |}) c)
  = (Ok tt, mkc w c NoTables).
Proof.
  intros Hf. unfold SqliteDb__connect.
  erewrite bind_ok; [|by apply the_db_some]. mleaf. simpl.
  rewrite decide_False by (by intros [_ [? ?]]).
  assert (db_content w {| filename := _filename c; con := None |} = NoTables) as ->.
  { unfold db_content; simpl. case_decide; [done|]. by destruct Hf as [->|]. }
  assert (db_store NoTables {| filename := _filename c; con := None |}
            (w, set__dbs (Some {| filename := _filename c; con := None |}) c)
          = (Ok tt, mkc w c NoTables)) as Hs.
  { unfold db_store, mkc; simpl. case_decide; simpl; [|done].
    unfold set_self; simpl. rewrite set_fs_fs. by destruct c. }
  assert (∀ h e, NoTables ≠ Garbage h e) as Hx by done.
  mrw Hs. mrw (pragma_mkc "pragma journal_mode=off" w c NoTables Hx).
  by apply pragma_mkc.
Qed.

Lemma executescript_SCHEMA_new w c :
  executescript_SCHEMA (mkc w c NoTables) = (Ok tt, mk w c empty_db).
Proof.
  unfold executescript_SCHEMA.
  mrw (the_db_mkc w c NoTables). mrw (world_mkc id w c NoTables).
  unfold id. rewrite db_content_mkc. apply db_store_mkc.
Qed.

Lemma _create_db_new w c :
  fs w !! _filename c = None →
  _create_db (w, c) = (Ok tt, mk w c (created_db w)).
Proof.
  intros Hf. unfold _create_db. do 3 mleaf. simpl.
  unfold with_db. mrw (SqliteDb__connect_new w c (or_introl Hf)).
  mrw (executescript_SCHEMA_new w c).
  erewrite bind_ok; [|by apply execute_mk].
  apply executemany_mk. reflexivity.
Qed.

Lemma _connect_new w c :
  _dbs c = None → fs w !! _filename c = None →
  _connect (w, c) = (Ok tt, mk w c (created_db w)).
Proof.
  intros Hd Hf. unfold _connect. do 2 mleaf. simpl. rewrite Hd, Hf.
  rewrite decide_False by (by intros [? ?]). by apply _create_db_new.
Qed.

(** Entering [with self._connect() as con:] in a connected state. *)
Ltac mconnect :=
  unfold with_connect at 1, with_db at 1;
  rewrite ?bind_assoc;
  (erewrite bind_ok; [|apply _connect_mk]); cbv beta;
  rewrite ?bind_assoc;
  (erewrite bind_ok; [|apply SqliteDb__connect_mk]); cbv beta.
Module NumbitsFacts.
Import Numbits.

Lemma byte_nums_spec i byte k :
  k ∈ byte_nums i byte ↔
  ∃ j, (j < 8)%N ∧ N.testbit byte j = true ∧ k = (8 * N.of_nat i + j)%N.
Proof.
  unfold byte_nums. rewrite list_elem_of_omap. split.
  - intros (j & Hj & Hk). exists j.
    destruct (N.testbit byte j) eqn:E; [|done]. inversion Hk; subst.
    split; [|done].
    repeat (apply elem_of_cons in Hj as [->|Hj]; [lia|]). by apply elem_of_nil in Hj.
  - intros (j & Hj & Hb & ->). exists j. rewrite Hb. split; [|done].
    assert (j = 0 ∨ j = 1 ∨ j = 2 ∨ j = 3 ∨ j = 4 ∨ j = 5 ∨ j = 6 ∨ j = 7)%N
      as Hc by lia.
    rewrite !elem_of_cons. tauto.
Qed.

Lemma numbits_to_nums_spec b k : k ∈ numbits_to_nums b ↔ bit_at b k = true.
Proof.
  unfold numbits_to_nums, bit_at. rewrite list_elem_of_join. split.
  - intros (l & Hk & Hl). apply elem_of_lookup_imap in Hl as (i & byte & -> & Hi).
    apply byte_nums_spec in Hk as (j & Hj & Hb & ->).
    replace ((8 * N.of_nat i + j) / 8)%N with (N.of_nat i)
      by (apply (N.div_unique _ 8 _ j); lia).
    replace ((8 * N.of_nat i + j) mod 8)%N with j
      by (apply (N.mod_unique _ 8 (N.of_nat i) j); lia).
    rewrite Nat2N.id, nth_lookup, Hi. done.
  - intros Hb. rewrite nth_lookup in Hb.
    destruct (b !! N.to_nat (k / 8)) as [byte|] eqn:Hi; simpl in Hb;
      [|done].
    exists (byte_nums (N.to_nat (k / 8)) byte). split.
    + apply byte_nums_spec. exists (k mod 8)%N. split; [apply N.mod_lt; lia|].
      split; [done|]. rewrite N2Nat.id. apply N.div_mod. lia.
    + by apply elem_of_lookup_imap_2.
Qed.

Lemma nth_strip_zeros b i : nth i (strip_zeros b) 0%N = nth i b 0%N.
Proof.
  revert i. induction b as [|x r IH]; intros i; [done|]. simpl.
  destruct (strip_zeros r) as [|y r'] eqn:E.
  - destruct (N.eqb_spec x 0) as [->|].
    + destruct i; simpl; [done|]. rewrite <- IH. by destruct i.
    + destruct i; simpl; [done|]. rewrite <- IH. by destruct i.
  - destruct i; simpl; [done|]. by rewrite <- IH.
Qed.

Lemma bit_at_strip_zeros b k : bit_at (strip_zeros b) k = bit_at b k.
Proof. unfold bit_at. by rewrite nth_strip_zeros. Qed.

Lemma nth_or_bytes a b i :
  nth i (or_bytes a b) 0%N = N.lor (nth i a 0%N) (nth i b 0%N).
Proof.
  revert b i. induction a as [|x a IH]; intros b i; simpl.
  - by destruct i.
  - destruct b as [|y b]; simpl.
    + destruct i; simpl; by rewrite N.lor_0_r.
    + destruct i; simpl; [done|]. apply IH.
Qed.

Lemma bit_at_numbits_union a b k :
  bit_at (numbits_union a b) k = bit_at a k || bit_at b k.
Proof.
  unfold numbits_union. rewrite bit_at_strip_zeros. unfold bit_at.
  by rewrite nth_or_bytes, N.lor_spec.
Qed.

Lemma nth_set_bit b i k j :
  nth j (set_bit b i k) 0%N =
  if decide (j = i ∧ (i < length b)%nat) then N.lor (nth j b 0%N) (N.shiftl 1 k)
  else nth j b 0%N.
Proof.
  revert i j. induction b as [|x r IH]; intros i j; simpl.
  - case_decide; [lia|done].
  - destruct i, j; simpl; rewrite ?IH; repeat case_decide;
      try done; exfalso; lia.
Qed.

Lemma length_set_bit b i k : length (set_bit b i k) = length b.
Proof. revert i. induction b; intros [|i]; simpl; auto. Qed.

Lemma bit_at_set_bit b n k :
  (N.to_nat (n / 8) < length b)%nat →
  bit_at (set_bit b (N.to_nat (n / 8)) (n mod 8)) k = bit_at b k || bool_decide (k = n).
Proof.
  intros Hlen. unfold bit_at. rewrite nth_set_bit.
  case_decide as Hc.
  - destruct Hc as [Hc _]. apply N2Nat.inj in Hc. rewrite N.lor_spec. f_equal.
    rewrite N.shiftl_1_l, N.pow2_bits_eqb.
    destruct (N.eqb_spec (n mod 8) (k mod 8)) as [Hm|Hm].
    + rewrite bool_decide_eq_true_2; [done|].
      rewrite (N.div_mod k 8), (N.div_mod n 8) by lia. by rewrite Hc, Hm.
    + rewrite bool_decide_eq_false_2; [done|]. by intros ->.
  - rewrite bool_decide_eq_false_2; [by rewrite orb_false_r|].
    intros ->. apply Hc. done.
Qed.

Lemma bit_at_foldl_set_bit nums b k :
  (∀ n, n ∈ nums → (N.to_nat (n / 8) < length b)%nat) →
  bit_at (foldl (fun b n => set_bit b (N.to_nat (n / 8)) (n mod 8)) b nums) k
  = bit_at b k || bool_decide (k ∈ nums).
Proof.
  revert b. induction nums as [|n nums IH]; intros b Hlen.
  - destruct (bool_decide_reflect (k ∈ @nil N)) as [H|_];
      [by apply elem_of_nil in H|by rewrite orb_false_r].
  - simpl foldl. rewrite IH.
    + rewrite bit_at_set_bit by (apply Hlen; left).
      rewrite <- orb_assoc. f_equal.
      apply eq_true_iff_eq. rewrite orb_true_iff, !bool_decide_eq_true, elem_of_cons.
      done.
    + intros m Hm. rewrite length_set_bit. apply Hlen. by right.
Qed.

Lemma le_max_num nums n : n ∈ nums → (n ≤ max_num nums)%N.
Proof.
  unfold max_num. induction nums as [|m nums IH]; simpl.
  - intros H. by apply elem_of_nil in H.
  - intros [->|H]%elem_of_cons; [lia|]. specialize (IH H). lia.
Qed.

Lemma bit_at_replicate n k : bit_at (replicate n 0%N) k = false.
Proof.
  unfold bit_at. rewrite nth_lookup.
  destruct (replicate n 0%N !! N.to_nat (k / 8)) as [x|] eqn:E; simpl.
  - apply lookup_replicate in E as [-> _]. apply N.bits_0.
  - done.
Qed.

Lemma bit_at_nums_to_numbits nums k :
  bit_at (nums_to_numbits nums) k = bool_decide (k ∈ nums).
Proof.
  unfold nums_to_numbits. destruct nums as [|n0 nums'] eqn:E.
  - destruct (bool_decide_reflect (k ∈ @nil N)) as [H|_];
      [by apply elem_of_nil in H|].
    unfold bit_at. by destruct (N.to_nat (k / 8)).
  - rewrite <- E. clear E n0 nums'.
    rewrite bit_at_strip_zeros, bit_at_foldl_set_bit.
    + by rewrite bit_at_replicate.
    + intros n Hn. rewrite length_replicate. apply le_max_num in Hn.
      assert ((max_num nums + 1 + 7) / 8 = max_num nums / 8 + 1)%N as ->.
      { replace (max_num nums + 1 + 7)%N with (max_num nums + 1 * 8)%N by lia.
        by rewrite N.div_add by lia. }
      pose proof (N.Div0.div_le_mono n (max_num nums) 8 Hn). lia.
Qed.

(** [decode(encode(S)) == S] *)
Lemma numbits_roundtrip nums k :
  k ∈ numbits_to_nums (nums_to_numbits nums) ↔ k ∈ nums.
Proof.
  by rewrite numbits_to_nums_spec, bit_at_nums_to_numbits, bool_decide_eq_true.
Qed.

(** [decode(union(a, b)) == decode(a) ∪ decode(b)] *)
Lemma numbits_union_spec a b k :
  k ∈ numbits_to_nums (numbits_union a b) ↔
  k ∈ numbits_to_nums a ∨ k ∈ numbits_to_nums b.
Proof.
  rewrite !numbits_to_nums_spec, bit_at_numbits_union. apply orb_true_iff.
Qed.

End NumbitsFacts.

Lemma _reset_eq w c :
  _reset (w, c) =
  (Ok tt, (w, set__current_context_id None
                (set__have_used false (set__file_map [] (set__dbs None c))))).
Proof. unfold _reset. by do 3 mleaf. Qed.

Lemma _choose_filename_eq w c :
  ∃ name, _choose_filename (w, c) = (Ok tt, (w, set__filename name c)) ∧
          (_no_disk c = true → name = memory).
Proof.
  unfold _choose_filename. do 2 mleaf. simpl.
  destruct (_no_disk c) eqn:E.
  - exists memory. done.
  - mleaf. simpl. destruct (filename_suffix w (_suffix c)) as [suffix|].
    + case_decide.
      * exists (_basename c). by split.
      * exists (_basename c +:+ "." +:+ suffix). split; [|done].
        unfold set_self. simpl. by destruct c.
    + exists (_basename c). by split.
Qed.

Lemma erase_false_eq w c :
  erase false (w, c) =
  (Ok tt,
   (if _no_disk c then w else set_fs (delete (_filename c) (fs w)) w,
    set__current_context_id None
      (set__have_used false (set__file_map [] (set__dbs None c))))).
Proof.
  unfold erase. mrw (_reset_eq w c). mleaf. simpl.
  destruct (_no_disk c); [done|]. unfold file_be_gone. by mleaf.
Qed.

Lemma _start_using_unused w c :
  unused w c → ∃ w' c', _start_using (w, c) = (Ok tt, (w', c')) ∧ erased_from w c w' c'.
Proof.
  intros [Hu Hm]. unfold _start_using. do 2 mleaf. simpl.
  case_decide as Hp.
  - mrw (_reset_eq w c).
    destruct (_choose_filename_eq w
      (set__current_context_id None
         (set__have_used false (set__file_map [] (set__dbs None c)))))
      as (name & Hc & Hn).
    mrw Hc. do 2 mleaf. simpl.
    rewrite ?bind_assoc; erewrite bind_ok; [|apply erase_false_eq]. simpl.
    eexists _, _. split; [reflexivity|].
    split; simpl; try done.
    + by destruct (_no_disk c).
    + destruct (_no_disk c) eqn:E; simpl.
      * rewrite Hn by done. by apply Hm.
      * apply lookup_delete_eq.
    + by destruct (_no_disk c), w.
  - mleaf. mleaf. simpl. rewrite Hu. simpl.
    rewrite ?bind_assoc; erewrite bind_ok; [|apply erase_false_eq]. simpl.
    eexists _, _. split; [reflexivity|].
    split; simpl; try done.
    + destruct (_no_disk c); simpl; by destruct (decide (_pid c = os_getpid w)).
    + destruct (_no_disk c) eqn:E; simpl.
      * destruct (Hm eq_refl) as [-> ?]. done.
      * apply lookup_delete_eq.
    + by destruct (_no_disk c), w.
Qed.

Lemma _start_using_mk w c d :
  _have_used c = true → _pid c = os_getpid w →
  _start_using (mk w c d) = (Ok tt, mk w c d).
Proof.
  intros Hu Hp. unfold _start_using. do 2 mleaf. simpl.
  rewrite decide_False by (by rewrite Hp; intros []).
  do 2 mleaf. simpl. rewrite Hu. simpl. mleaf.
  unfold set_self, mk, mkc. simpl. do 2 f_equal. destruct c; simpl in *. by subst.
Qed.

(** [_start_using] always returns, and leaves the two mode flags alone. *)
Lemma _start_using_total s :
  ∃ s', _start_using s = (Ok tt, s') ∧
        _has_lines s'.2 = _has_lines s.2 ∧ _has_arcs s'.2 = _has_arcs s.2.
Proof.
  destruct s as [w c]. unfold _start_using. do 2 mleaf. simpl.
  assert (∃ c1, ((if decide (_pid c ≠ os_getpid w) is left _
                  then _reset;; _choose_filename;; set_self (set__pid (os_getpid w))
                  else mret ()) (w, c) = (Ok tt, (w, c1)))
                ∧ _has_lines c1 = _has_lines c ∧ _has_arcs c1 = _has_arcs c)
    as (c1 & H1 & Hl & Ha).
  { case_decide.
    - mrw (_reset_eq w c).
      destruct (_choose_filename_eq w
        (set__current_context_id None
           (set__have_used false (set__file_map [] (set__dbs None c)))))
        as (name & Hc & Hn).
      mrw Hc. eexists. split; [reflexivity|]. done.
    - by exists c. }
  mrw H1. mleaf. simpl.
  destruct (_have_used c1); simpl.
  - mleaf. eexists. split; [reflexivity|]. done.
  - rewrite ?bind_assoc; erewrite bind_ok; [|apply erase_false_eq]. eexists. split; [reflexivity|]. done.
Qed.

Lemma add_arcs_mixed arc_data s :
  _has_lines s.2 = true →
  ∃ s', add_arcs arc_data s = (Raise mixed_arcs, s') ∧
        _has_lines s'.2 = true ∧ _has_arcs s'.2 = _has_arcs s.2.
Proof.
  intros H. destruct (_start_using_total s) as ([w c] & Hs & Hl & Ha). simpl in Hl, Ha.
  unfold add_arcs. mrw Hs.
  unfold _choose_lines_or_arcs. simpl. do 3 mleaf. simpl.
  rewrite Hl, H. simpl. mleaf. mleaf. 
  exists (w, c). split; [|by rewrite <- Ha, <- H].
  reflexivity.
Qed.

Lemma add_lines_mixed line_data s :
  _has_arcs s.2 = true →
  ∃ s', add_lines line_data s = (Raise mixed_lines, s') ∧
        _has_arcs s'.2 = true ∧ _has_lines s'.2 = _has_lines s.2.
Proof.
  intros H. destruct (_start_using_total s) as ([w c] & Hs & Hl & Ha). simpl in Hl, Ha.
  unfold add_lines. mrw Hs.
  unfold _choose_lines_or_arcs. simpl. do 3 mleaf. simpl.
  rewrite Ha, H. simpl. mleaf.
  exists (w, c). split; [|by rewrite <- Hl, <- H].
  reflexivity.
Qed.

Lemma self_mk {A} (g : CoverageData → A) w c d :
  self_ g (mk w c d) = (Ok (g (mk w c d).2), mk w c d).
Proof. reflexivity. Qed.

Lemma dict_get_set {K V} `{EqDecision K} (k : K) (v : V) d :
  dict_get k (dict_set k v d) = Some v.
Proof.
  induction d as [|[k' v'] d IH]; simpl.
  - by rewrite decide_True.
  - destruct (decide (k' = k)) as [->|Hne]; simpl.
    + by rewrite decide_True.
    + by rewrite decide_False.
Qed.

Lemma dict_get_set_ne {K V} `{EqDecision K} (k k' : K) (v : V) d :
  k ≠ k' → dict_get k' (dict_set k v d) = dict_get k' d.
Proof.
  intros Hne. induction d as [|[k0 v0] d IH]; simpl.
  - by rewrite decide_False.
  - destruct (decide (k0 = k)) as [->|]; simpl.
    + by rewrite !decide_False.
    + by rewrite IH.
Qed.

Lemma filter_none {A} (P : A → Prop) `{∀ x, Decision (P x)} (l : list A) :
  (∀ x, x ∈ l → ¬ P x) → filter P l = [].
Proof.
  induction l as [|x l IH]; intros H0; [done|].
  rewrite filter_cons_False by (apply H0; left). apply IH. intros y Hy. apply H0. by right.
Qed.

Lemma filter_every {A} (P : A → Prop) `{∀ x, Decision (P x)} (l : list A) :
  (∀ x, x ∈ l → P x) → filter P l = l.
Proof.
  induction l as [|x l IH]; intros H0; [done|].
  rewrite filter_cons_True by (apply H0; left). f_equal. apply IH.
  intros y Hy. apply H0. by right.
Qed.

Lemma filter_one {A} (P : A → Prop) `{∀ x, Decision (P x)} (x : A) :
  P x → filter P [x] = [x].
Proof. intros. by rewrite filter_cons_True. Qed.

Lemma _start_using_in_use w c d :
  in_use w c → _start_using (mk w c d) = (Ok tt, mk w c d).
Proof. intros [??]. by apply _start_using_mk. Qed.

Lemma execute_one_mk {A} sql table (st : stmt (list A)) w c d rows d' :
  st d = SqlOk rows d' → (length rows ≤ 1)%nat →
  execute_one sql table st (mk w c d) = (Ok (head rows), mk w c d').
Proof.
  intros H Hlen. unfold execute_one. erewrite bind_ok; [|by apply execute_mk].
  destruct rows as [|r [|r' rows]]; simpl in *; [done..|lia].
Qed.

Lemma _context_id_mk ctx w c d :
  in_use w c → (length (filter (fun r => r.2 = ctx) (context d)) ≤ 1)%nat →
  _context_id ctx (mk w c d) =
  (Ok (head (filter (fun r => r.2 = ctx) (context d)).*1), mk w c d).
Proof.
  intros Hu Hlen. unfold _context_id. mrw (_start_using_in_use w c d Hu).
  rewrite with_connect_mk. apply execute_one_mk; [done|].
  by rewrite length_fmap.
Qed.

Lemma set__current_context_id_mk x w c d :
  set_self (set__current_context_id x) (mk w c d)
  = (Ok tt, mk w (set__current_context_id x c) d).
Proof. apply set_self_mk; by intros; try destruct c0. Qed.

Lemma set__file_map_mk x w c d :
  set_self (fun c => set__file_map (x c) c) (mk w c d)
  = (Ok tt, mk w (set__file_map (x (mk w c d).2) c) d).
Proof.
  unfold set_self, mk, mkc. simpl. done.
Qed.

(** [_set_context_id] when the context has no row yet. *)
Lemma _set_context_id_new w c d :
  in_use w c →
  default "" (_current_context c) ∉ (context d).*2 →
  _set_context_id (mk w c d) =
  (Ok tt, mk w (set__current_context_id (Some (next_rowid (context d))) c)
             (set_context_table
                (context d ++ [(next_rowid (context d), default "" (_current_context c))])
                d)).
Proof.
  intros Hu Hn. unfold _set_context_id. mrw (self_mk id w c d). simpl.
  assert (filter (fun r : Z * string => r.2 = default "" (_current_context c)) (context d)
          = []) as Hf.
  { apply filter_none. intros [i x] Hx Hc. simpl in Hc. subst x.
    apply Hn. apply list_elem_of_fmap. by exists (i, default "" (_current_context c)). }
  erewrite bind_ok; [|apply _context_id_mk; [done|rewrite Hf; simpl; lia]].
  rewrite Hf. simpl. rewrite with_connect_mk.
  erewrite bind_ok;
    [|apply execute_mk; unfold insert_context; by rewrite decide_False].
  apply set__current_context_id_mk.
Qed.

(** [_set_context_id] when the context has its row. *)
Lemma _set_context_id_old w c d cid :
  in_use w c →
  filter (fun r => r.2 = default "" (_current_context c)) (context d)
    = [(cid, default "" (_current_context c))] →
  _set_context_id (mk w c d) =
  (Ok tt, mk w (set__current_context_id (Some cid) c) d).
Proof.
  intros Hu Hf. unfold _set_context_id. mrw (self_mk id w c d). simpl.
  erewrite bind_ok; [|apply _context_id_mk; [done|rewrite Hf; simpl; lia]].
  rewrite Hf. simpl. apply set__current_context_id_mk.
Qed.

(** [_file_id(filename, add=True)] for a file not in the cache. *)
Lemma _file_id_add w c d path :
  dict_get path (_file_map c) = None →
  _file_id path true (mk w c d) =
  (Ok (Some (next_rowid (file d))),
   mk w (set__file_map (dict_set path (next_rowid (file d)) (_file_map c)) c)
        (set_file (filter (fun r => r.2 ≠ path) (file d) ++ [(next_rowid (file d), path)]) d)).
Proof.
  intros Hg. unfold _file_id. mrw (self_mk id w c d). simpl. rewrite Hg.
  mconnect. rewrite ?bind_assoc. erewrite bind_ok; [|by apply execute_mk].
  erewrite bind_ok; [|apply set__file_map_mk]. simpl.
  rewrite self_mk. simpl. by rewrite dict_get_set.
Qed.

(** [_file_id(filename)] for a file in the cache, or without [add]. *)
Lemma _file_id_cached w c d path add :
  (add = false ∨ is_Some (dict_get path (_file_map c))) →
  _file_id path add (mk w c d) = (Ok (dict_get path (_file_map c)), mk w c d).
Proof.
  intros Hg. unfold _file_id. mrw (self_mk id w c d). simpl.
  destruct (dict_get path (_file_map c)) eqn:E.
  - mleaf. rewrite self_mk. simpl. by rewrite E.
  - destruct Hg as [->|[? ?]]; [|done]. mleaf. rewrite self_mk. simpl. by rewrite E.
Qed.

(** The first choice of a mode, right after the data file was erased: it
    creates the database and writes the [has_arcs] row. *)
Lemma _choose_lines_or_arcs_first w c lines arcs :
  xorb lines arcs = true →
  _dbs c = None → fs w !! _filename c = None →
  _has_lines c = false → _has_arcs c = false →
  _choose_lines_or_arcs lines arcs (w, c) =
  (Ok tt, mk w (set__has_arcs arcs (set__has_lines lines c))
             (set_meta (meta (created_db w) ++ [("has_arcs", str_int_bool arcs)])
                       (created_db w))).
Proof.
  intros Hx Hd Hf Hl Ha. unfold _choose_lines_or_arcs.
  assert (lines || arcs = true) as -> by (by destruct lines, arcs).
  assert (negb (lines && arcs) = true) as -> by (by destruct lines, arcs).
  do 3 mleaf. simpl. rewrite Hl, Ha, !andb_false_r. do 2 mleaf. simpl. do 2 mleaf. simpl.
  unfold with_connect. erewrite bind_ok; [|by apply _connect_new].
  rewrite with_db_mk. by apply execute_mk.
Qed.


Lemma _choose_lines_or_arcs_again lines arcs s :
  xorb lines arcs = true →
  _has_lines s.2 = lines → _has_arcs s.2 = arcs →
  _choose_lines_or_arcs lines arcs s = (Ok tt, s).
Proof.
  intros Hx Hl Ha. unfold _choose_lines_or_arcs.
  assert (lines || arcs = true) as -> by (by destruct lines, arcs).
  assert (negb (lines && arcs) = true) as -> by (by destruct lines, arcs).
  do 3 mleaf. rewrite Hl, Ha.
  assert (lines && arcs = false) as -> by (by destruct lines, arcs).
  assert (arcs && lines = false) as -> by (by destruct lines, arcs).
  do 2 mleaf. by destruct lines, arcs.
Qed.

(** The first add after the data file was erased: once the mode is chosen
    and the connection made, the handle holds a database with no file, no
    context, no line and no arc. *)
Lemma first_add_connect w c w' c' lines arcs :
  xorb lines arcs = true →
  erased_from w c w' c' →
  _has_lines c = false ∨ _has_lines c = lines →
  _has_arcs c = false ∨ _has_arcs c = arcs →
  ∃ m, ∀ A (body : M St A),
    (_choose_lines_or_arcs lines arcs ≫= λ _, with_connect body) (w', c') =
    body (mk w' (set__has_arcs arcs (set__has_lines lines c'))
               (set_meta m (created_db w'))).
Proof.
  intros Hx [] Hl Ha.
  destruct (decide (_has_lines c = false ∧ _has_arcs c = false)) as [[El Ea]|Hne].
  - eexists. intros A body.
    erewrite bind_ok;
      [|apply _choose_lines_or_arcs_first; congruence].
    by rewrite with_connect_mk.
  - (* the mode was chosen in an earlier life of the handle *)
    assert (_has_lines c = lines ∧ _has_arcs c = arcs) as [Hl' Ha'].
    { destruct (_has_lines c), (_has_arcs c), lines, arcs; simpl in *;
        try discriminate; try (split; reflexivity); exfalso; intuition congruence. }
    exists (meta (created_db w')). intros A body.
    erewrite bind_ok;
      [|apply _choose_lines_or_arcs_again; simpl; [done|congruence..]].
    unfold with_connect. erewrite bind_ok; [|by apply _connect_new].
    rewrite with_db_mk.
    replace (set__has_arcs arcs (set__has_lines lines c')) with c'; [done|].
    rewrite <- Hl', <- Ha', <- ef_has_lines0, <- ef_has_arcs0. by destruct c'.
Qed.

Section hoare.
Context {S : Type}.
Implicit Types P : S → Prop.

Lemma hoare_bind {A B} P (m : M S A) (f : A → M S B) Q R E :
  hoare P m Q E → (∀ a, hoare (Q a) (f a) R E) → hoare P (m ≫= f) R E.
Proof.
  intros Hm Hf s Hs. specialize (Hm s Hs). unfold mbind, M_bind.
  destruct (m s) as [[a|e] s']; [by apply Hf|done].
Qed.

Lemma hoare_ret {A} P (a : A) (Q : A → S → Prop) E :
  (∀ s, P s → Q a s) → hoare P (mret a) Q E.
Proof. intros H s Hs. by apply H. Qed.

Lemma hoare_raise {A} P e (Q : A → S → Prop) (E : exn → S → Prop) :
  (∀ s, P s → E e s) → hoare P (raise e) Q E.
Proof. intros H s Hs. by apply H. Qed.

Lemma hoare_conseq {A} P P' (m : M S A) (Q Q' : A → S → Prop) (E E' : exn → S → Prop) :
  hoare P' m Q' E' → (∀ s, P s → P' s) → (∀ a s, Q' a s → Q a s) →
  (∀ e s, E' e s → E e s) → hoare P m Q E.
Proof.
  intros H HP HQ HE s Hs. specialize (H s (HP s Hs)).
  destruct (m s) as [[a|e] s']; auto.
Qed.

Lemma hoare_pre {A} P P' (m : M S A) Q E :
  hoare P' m Q E → (∀ s, P s → P' s) → hoare P m Q E.
Proof. intros H HP. eapply hoare_conseq; eauto. Qed.

Lemma hoare_post {A} P (m : M S A) (Q Q' : A → S → Prop) E :
  hoare P m Q' E → (∀ a s, Q' a s → Q a s) → hoare P m Q E.
Proof. intros H HQ. eapply hoare_conseq; eauto. Qed.

(** A fact [F] that does not depend on the state is at hand in the proof. *)
Lemma hoare_assume {A} P (F : Prop) (m : M S A) Q E :
  (∀ s, P s → F) → (F → hoare P m Q E) → hoare P m Q E.
Proof. intros HF H s Hs. by apply (H (HF s Hs)). Qed.

Lemma hoare_get P (E : exn → S → Prop) :
  hoare P get (λ a s, a = s ∧ P s) E.
Proof. intros s Hs. done. Qed.

Lemma hoare_try_except {A} P (m : M S A) handler Q E E' :
  hoare P m Q E' → (∀ e, hoare (E' e) (handler e) Q E) → hoare P (try_except m handler) Q E.
Proof.
  intros Hm Hh s Hs. specialize (Hm s Hs). unfold try_except.
  destruct (m s) as [[a|e] s']; [done|by apply Hh].
Qed.

Lemma hoare_for_each {A} (I : S → Prop) (l : list A) (body : A → M S unit) E :
  (∀ x, x ∈ l → hoare I (body x) (λ _, I) E) →
  hoare I (for_each l body) (λ _, I) E.
Proof.
  induction l as [|x l IH]; intros H; simpl.
  - by apply hoare_ret.
  - eapply hoare_bind; [apply H; left|]. intros []. apply IH. intros y Hy. apply H. by right.
Qed.

Lemma hoare_map_M {A B} (I : S → Prop) (l : list A) (f : A → M S B) E :
  (∀ x, x ∈ l → hoare I (f x) (λ _, I) E) →
  hoare I (map_M f l) (λ _, I) E.
Proof.
  induction l as [|x l IH]; intros H; simpl.
  - by apply hoare_ret.
  - eapply hoare_bind; [apply H; left|]. intros y.
    eapply hoare_bind; [apply IH; intros z Hz; apply H; by right|].
    intros ys. by apply hoare_ret.
Qed.

End hoare.

Lemma hoare_self {A} (P : St → Prop) (g : CoverageData → A) E :
  hoare P (self_ g) (λ a s, a = g s.2 ∧ P s) E.
Proof. intros s Hs. done. Qed.

Lemma hoare_world {A} (P : St → Prop) (g : World → A) E :
  hoare P (world_ g) (λ a s, a = g s.1 ∧ P s) E.
Proof. intros s Hs. done. Qed.

Lemma hoare_set_self (P Q : St → Prop) g E :
  (∀ s, P s → Q (s.1, g s.2)) → hoare P (set_self g) (λ _, Q) E.
Proof. intros H s Hs. by apply H. Qed.

Lemma hoare_set_world (P Q : St → Prop) g E :
  (∀ s, P s → Q (g s.1, s.2)) → hoare P (set_world g) (λ _, Q) E.
Proof. intros H s Hs. by apply H. Qed.

(** C9: [add_lines({})] and [add_arcs({})] establish the mode of a store
    that has none: the [has_arcs] row is written ("0" for lines, "1" for
    arcs) and the flags are set, no file, line or arc row is added, and any
    later add of the other kind raises the mixed-mode error. *)
Theorem C9_empty_add_sets_mode w c :
  unused w c → _has_lines c = false → _has_arcs c = false →
  (∃ s d, add_lines [] (w, c) = (Ok tt, s) ∧
          _has_lines s.2 = true ∧ _has_arcs s.2 = false ∧
          tables_of s = Some d ∧
          filter (fun kv => kv.1 = "has_arcs") (meta d) = [("has_arcs", "0")] ∧
          file d = [] ∧ line_bits d = [] ∧ arc d = [] ∧
          ∀ arc_data, ∃ s', add_arcs arc_data s = (Raise mixed_arcs, s')) ∧
  (∃ s d, add_arcs [] (w, c) = (Ok tt, s) ∧
          _has_lines s.2 = false ∧ _has_arcs s.2 = true ∧
          tables_of s = Some d ∧
          filter (fun kv => kv.1 = "has_arcs") (meta d) = [("has_arcs", "1")] ∧
          file d = [] ∧ line_bits d = [] ∧ arc d = [] ∧
          ∀ line_data, ∃ s', add_lines line_data s = (Raise mixed_lines, s')).
Proof.
  intros Hu Hl Ha.
  destruct (_start_using_unused w c Hu) as (w' & c' & Hs & He).
  destruct He. split.
  - unfold add_lines. mrw Hs.
    erewrite bind_ok;
      [|apply _choose_lines_or_arcs_first; [done|done|done|congruence|congruence]].
    eexists _, _. split; [reflexivity|].
    rewrite tables_of_mk. simpl. repeat split; try done.
    intros arc_data.
    edestruct (add_arcs_mixed arc_data) as (s' & H & _); [|by eexists]. done.
  - unfold add_arcs. mrw Hs.
    erewrite bind_ok;
      [|apply _choose_lines_or_arcs_first; [done|done|done|congruence|congruence]].
    eexists _, _. split; [reflexivity|].
    rewrite tables_of_mk. simpl. repeat split; try done.
    intros line_data.
    edestruct (add_lines_mixed line_data) as (s' & H & _); [|by eexists]. done.
Qed.

Lemma C9_empty_add_sets_mode_witness :
  unused example_world example_handle ∧
  (∃ s d, add_lines [] (example_world, example_handle) = (Ok tt, s) ∧
          _has_lines s.2 = true ∧ _has_arcs s.2 = false ∧
          tables_of s = Some d ∧
          filter (fun kv => kv.1 = "has_arcs") (meta d) = [("has_arcs", "0")] ∧
          file d = [] ∧ line_bits d = [] ∧ arc d = [] ∧
          ∀ arc_data, ∃ s', add_arcs arc_data s = (Raise mixed_arcs, s')) ∧
  (∃ s d, add_arcs [] (example_world, example_handle) = (Ok tt, s) ∧
          _has_lines s.2 = false ∧ _has_arcs s.2 = true ∧
          tables_of s = Some d ∧
          filter (fun kv => kv.1 = "has_arcs") (meta d) = [("has_arcs", "1")] ∧
          file d = [] ∧ line_bits d = [] ∧ arc d = [] ∧
          ∀ line_data, ∃ s', add_lines line_data s = (Raise mixed_lines, s')).
Proof.
  assert (unused example_world example_handle) as H.
  { split; [reflexivity|]. vm_compute. intros H. discriminate H. }
  split; [exact H|].
  apply (C9_empty_add_sets_mode example_world example_handle H); reflexivity.
Defined.

Lemma current_context_id_mk w c d cid :
  _current_context_id c = Some cid →
  current_context_id (mk w c d) = (Ok cid, mk w c d).
Proof. intros H. unfold current_context_id. mrw (self_mk id w c d). simpl. by rewrite H. Qed.

Lemma the_file_id_eq path s fid s' :
  _file_id path true s = (Ok (Some fid), s') → the_file_id path s = (Ok fid, s').
Proof. intros H. unfold the_file_id. by mrw H. Qed.

(** C1: on a handle that has not used its data file yet and is not recording
    arcs, with no query context set, [add_lines({f: L1})] then
    [add_lines({f: L2})] under one current context leave one [line_bits] row
    for the file, whose numbits decode to the union of [L1] and [L2], and
    [lines(f)] then returns the members of that union, each once. *)
Theorem C1_add_lines_twice_union w c f L1 L2 :
  unused w c → _has_arcs c = false → _query_context_ids c = None →
  ∃ l s d fid cid nb,
    (add_lines [(f, L1)];; add_lines [(f, L2)];; lines f) (w, c) = (Ok (Some l), s) ∧
    NoDup l ∧
    (∀ n, n ∈ l ↔ ∃ k, n = Z.of_N k ∧ (k ∈ L1 ∨ k ∈ L2)) ∧
    tables_of s = Some d ∧
    line_bits d = [(fid, cid, nb)] ∧
    (∀ k, k ∈ Numbits.numbits_to_nums nb ↔ k ∈ L1 ∨ k ∈ L2).
Proof.
  intros Hu Ha Hq.
  destruct (_start_using_unused w c Hu) as (w' & c' & Hs & He).
  destruct (first_add_connect w c w' c' true false eq_refl He) as (m & Hm);
    [destruct (_has_lines c); auto|auto|].
  destruct He as [Hdbs Hmap Hused Hpid Hcid Hgone Hhl Hha Hctx Hqry Hnd Hw].
  set (ctx := default "" (_current_context c')).
  set (c1 := set__has_arcs false (set__has_lines true c')) in *.
  set (d1 := set_meta m (created_db w')) in *.
  assert (in_use w' c1) as Hu1 by done.
  (* the first add *)
  eassert (H1 : add_lines [(f, L1)] (w, c) = _).
  { unfold add_lines. mrw Hs. rewrite ?bind_assoc. rewrite Hm.
    rewrite ?bind_assoc.
    mby ltac:(apply _set_context_id_new; [done|apply not_elem_of_nil]).
    simpl for_each. rewrite ?bind_assoc.
    mby ltac:(apply the_file_id_eq, _file_id_add; simpl; by rewrite Hmap).
    mby ltac:(by apply current_context_id_mk).
    mby ltac:(by apply execute_mk).
    mby ltac:(by apply execute_mk).
    reflexivity. }
  simpl in H1. rewrite Hmap in H1. simpl in H1.
  set (c2 := set__file_map _ _) in H1. set (d2 := set_line_bits _ _) in H1.
  assert (in_use w' c2) as Hu2 by done.
  (* the second add *)
  eassert (H2 : add_lines [(f, L2)] (mk w' c2 d2) = _).
  { unfold add_lines.
    mrw (_start_using_in_use w' c2 d2 Hu2).
    mby ltac:(by apply _choose_lines_or_arcs_again).
    mconnect. rewrite ?bind_assoc.
    mby ltac:(eapply (_set_context_id_old _ _ _ 1); [done|]; by apply filter_one).
    simpl for_each. rewrite ?bind_assoc.
    mby ltac:(apply the_file_id_eq; rewrite _file_id_cached;
        [simpl; by rewrite decide_True|right; simpl; rewrite decide_True by done; by eexists]).
    mby ltac:(by apply current_context_id_mk).
    mby ltac:(by apply execute_mk).
    mby ltac:(by apply execute_mk).
    reflexivity. }
  simpl in H2.
  set (c3 := set__current_context_id _ c2) in H2. set (d3 := set_line_bits _ _) in H2.
  assert (in_use w' c3) as Hu3 by done.
  (* lines *)
  eassert (H3 : lines f (mk w' c3 d3) = _).
  { unfold lines. mrw (_start_using_in_use w' c3 d3 Hu3).
    unfold has_arcs. mrw (self_mk _has_arcs w' c3 d3). simpl. mleaf.
    mconnect.
    mby ltac:(apply _file_id_cached; by left).
    simpl. rewrite decide_True by done.
    mrw (self_mk id w' c3 d3). simpl.
    mby ltac:(by apply execute_mk).
    reflexivity. }
  simpl in H3. rewrite Hqry, Hq in H3. simpl in H3. rewrite app_nil_r in H3.
  eexists _, _, _, _, _, _. split.
  { mrw H1. mrw H2. exact H3. }
  rewrite tables_of_mk. simpl.
  assert (∀ k, k ∈ Numbits.numbits_to_nums
                     (Numbits.numbits_union (Numbits.nums_to_numbits L2)
                        (Numbits.nums_to_numbits L1)) ↔ k ∈ L1 ∨ k ∈ L2) as Hk.
  { intros k. rewrite NumbitsFacts.numbits_union_spec, !NumbitsFacts.numbits_roundtrip.
    tauto. }
  split; [apply NoDup_remove_dups|]. split; [|done].
  intros n. rewrite elem_of_remove_dups, list_elem_of_fmap.
  split; intros (k & -> & Hk'); exists k; (split; [done|]); by apply Hk.
Qed.

Lemma C1_add_lines_twice_union_witness :
  unused example_world example_handle ∧
  ∃ l s d fid cid nb,
    (add_lines [("a.py", [1; 2]%N)];; add_lines [("a.py", [2; 17]%N)];; lines "a.py")
      (example_world, example_handle) = (Ok (Some l), s) ∧
    NoDup l ∧
    (∀ n, n ∈ l ↔ ∃ k, n = Z.of_N k ∧ (k ∈ [1; 2]%N ∨ k ∈ [2; 17]%N)) ∧
    tables_of s = Some d ∧
    line_bits d = [(fid, cid, nb)] ∧
    (∀ k, k ∈ Numbits.numbits_to_nums nb ↔ k ∈ [1; 2]%N ∨ k ∈ [2; 17]%N).
Proof.
  assert (unused example_world example_handle) as H.
  { split; [reflexivity|]. vm_compute. intros H. discriminate H. }
  split; [exact H|].
  apply (C1_add_lines_twice_union example_world example_handle "a.py" [1; 2]%N [2; 17]%N H);
    reflexivity.
Defined.

Lemma set_arc_arc d : set_arc (arc d) d = d.
Proof. by destruct d. Qed.

Lemma many_pass_arc rows d :
  many_pass insert_or_ignore_arc (Some <$> rows) d
  = (set_arc (arcs_added (arc d) rows) d, ManyDone).
Proof.
  revert d. induction rows as [|r rows IH]; intros d; simpl.
  - by rewrite set_arc_arc.
  - unfold insert_or_ignore_arc at 1. unfold arcs_added. simpl.
    destruct (decide (r ∈ arc d)).
    + apply IH.
    + rewrite IH. by destruct d.
Qed.

Lemma elem_of_arcs_added t rows x : x ∈ arcs_added t rows ↔ x ∈ t ∨ x ∈ rows.
Proof.
  unfold arcs_added. revert t. induction rows as [|r rows IH]; intros t; simpl.
  - rewrite elem_of_nil. tauto.
  - rewrite IH, elem_of_cons. destruct (decide (r ∈ t)).
    + split; [tauto|]. intros [?|[->|?]]; tauto.
    + rewrite elem_of_app, list_elem_of_singleton. tauto.
Qed.

Lemma NoDup_arcs_added t rows : NoDup t → NoDup (arcs_added t rows).
Proof.
  unfold arcs_added. revert t. induction rows as [|r rows IH]; intros t Ht; simpl; [done|].
  apply IH. destruct (decide (r ∈ t)); [done|].
  apply NoDup_app. split; [done|]. split; [|apply NoDup_singleton].
  intros x Hx ->%list_elem_of_singleton. done.
Qed.

Lemma arcs_added_idem t rows : (∀ r, r ∈ rows → r ∈ t) → arcs_added t rows = t.
Proof.
  unfold arcs_added. induction rows as [|r rows IH]; intros H; simpl; [done|].
  rewrite decide_True by (apply H; left). apply IH. intros x Hx. apply H. by right.
Qed.

Lemma length_arcs_added (g : Z * Z → Z * Z * Z * Z) `{!Inj (=) (=) g} l :
  length (arcs_added [] (g <$> l)) = length (remove_dups l).
Proof.
  rewrite <- (length_fmap g (remove_dups l)). apply Permutation_length.
  apply NoDup_Permutation.
  - apply NoDup_arcs_added, NoDup_nil_2.
  - apply NoDup_fmap_2; [done|apply NoDup_remove_dups].
  - intros x. rewrite elem_of_arcs_added, elem_of_nil, !list_elem_of_fmap.
    setoid_rewrite elem_of_remove_dups. tauto.
Qed.

Lemma executemany_arcs sql rows w c d :
  executemany sql "arc" insert_or_ignore_arc rows (mk w c d)
  = (Ok tt, mk w c (set_arc (arcs_added (arc d) rows) d)).
Proof. apply executemany_mk, many_pass_arc. Qed.

(** C5: on a handle that has not used its data file yet and is not recording
    lines, with no query context set, [add_arcs({f: A1})] executed twice
    under one context leaves in the [arc] table one row for each distinct
    pair of [A1] and no other: the second call changes no table, no row
    occurs twice, the rows of [f] are as many as the distinct pairs of [A1],
    and [arcs(f)] returns those pairs, each once. *)
Theorem C5_add_arcs_idempotent w c f (A1 : list (Z * Z)) :
  unused w c → _has_lines c = false → _query_context_ids c = None →
  ∃ s1 s2 d fid l s3,
    add_arcs [(f, A1)] (w, c) = (Ok tt, s1) ∧
    add_arcs [(f, A1)] s1 = (Ok tt, s2) ∧
    tables_of s1 = Some d ∧ tables_of s2 = Some d ∧
    file d = [(fid, f)] ∧
    NoDup (arc d) ∧
    length (filter (fun r => r.1.1.1 = fid) (arc d)) = length (remove_dups A1) ∧
    arcs f s2 = (Ok (Some l), s3) ∧
    NoDup l ∧ (∀ a, a ∈ l ↔ a ∈ A1).
Proof.
  intros Hu Hl Hq.
  destruct (_start_using_unused w c Hu) as (w' & c' & Hs & He).
  destruct (first_add_connect w c w' c' false true eq_refl He) as (m & Hm);
    [auto|destruct (_has_arcs c); auto|].
  destruct He as [Hdbs Hmap Hused Hpid Hcid Hgone Hhl Hha Hctx Hqry Hnd Hw].
  set (c1 := set__has_arcs true (set__has_lines false c')) in *.
  set (d1 := set_meta m (created_db w')) in *.
  assert (in_use w' c1) as Hu1 by done.
  set (g := fun a : Z * Z => ((1, 1, a.1, a.2) : Z * Z * Z * Z)).
  assert (Inj (=) (=) g) as Hg by (by intros [??] [??] [= -> ->]).
  assert (∀ l : list (Z * Z),
            map (fun '(fromno, tono) => ((1, 1, fromno, tono) : Z * Z * Z * Z)) l = g <$> l)
    as Hmapg.
  { intros l. apply list_fmap_ext. by intros ? [??] _. }
  (* the first add *)
  eassert (H1 : add_arcs [(f, A1)] (w, c) = _).
  { unfold add_arcs. mrw Hs. rewrite ?bind_assoc. rewrite Hm.
    mby ltac:(apply _set_context_id_new; [done|apply not_elem_of_nil]).
    simpl for_each.
    mby ltac:(apply the_file_id_eq, _file_id_add; simpl; by rewrite Hmap).
    mby ltac:(by apply current_context_id_mk).
    mby ltac:(apply executemany_arcs).
    reflexivity. }
  simpl in H1. rewrite Hmap, Hmapg in H1. simpl in H1. fold g in H1.
  set (c2 := set__file_map _ _) in H1. set (d2 := set_arc _ _) in H1.
  assert (in_use w' c2) as Hu2 by done.
  (* the second add *)
  eassert (H2 : add_arcs [(f, A1)] (mk w' c2 d2) = _).
  { unfold add_arcs.
    mrw (_start_using_in_use w' c2 d2 Hu2).
    mby ltac:(by apply _choose_lines_or_arcs_again).
    mconnect.
    mby ltac:(eapply (_set_context_id_old _ _ _ 1); [done|]; by apply filter_one).
    simpl for_each.
    mby ltac:(apply the_file_id_eq; rewrite _file_id_cached;
        [simpl; by rewrite decide_True|right; simpl; rewrite decide_True by done; by eexists]).
    mby ltac:(by apply current_context_id_mk).
    mby ltac:(apply executemany_arcs).
    reflexivity. }
  simpl in H2. rewrite Hmapg in H2.
  rewrite arcs_added_idem in H2 by (intros r; rewrite elem_of_arcs_added; tauto).
  fold d2 in H2.
  set (c3 := set__current_context_id _ c2) in H2.
  assert (in_use w' c3) as Hu3 by done.
  (* arcs *)
  eassert (H3 : arcs f (mk w' c3 d2) = _).
  { unfold arcs. mrw (_start_using_in_use w' c3 d2 Hu3).
    mconnect.
    mby ltac:(apply _file_id_cached; by left).
    simpl. rewrite decide_True by done.
    mrw (self_mk id w' c3 d2). simpl.
    mby ltac:(by apply execute_mk).
    reflexivity. }
  simpl in H3. rewrite Hqry, Hq in H3.
  eexists _, _, d2, 1, _, _.
  split; [exact H1|]. split; [exact H2|].
  rewrite !tables_of_mk. split; [done|]. split; [done|]. split; [done|].
  split; [apply NoDup_arcs_added, NoDup_nil_2|].
  split.
  { simpl. rewrite <- (length_arcs_added g), filter_every; [done|].
    intros r. rewrite elem_of_arcs_added, elem_of_nil, list_elem_of_fmap.
    intros [[]|(a & -> & _)]. done. }
  split; [exact H3|].
  split; [apply NoDup_remove_dups|].
  intros a. rewrite elem_of_remove_dups, list_elem_of_In, in_map_iff.
  setoid_rewrite <- list_elem_of_In. setoid_rewrite list_elem_of_filter.
  simpl. setoid_rewrite elem_of_arcs_added. setoid_rewrite list_elem_of_fmap.
  split.
  - intros (r & <- & _ & [[]%elem_of_nil|(a' & -> & Ha')]). by destruct a'.
  - intros Ha. exists (g a). destruct a. simpl. split; [done|]. split; [done|].
    right. by eexists (_, _).
Qed.

Lemma C5_add_arcs_idempotent_witness :
  unused example_world example_handle ∧
  ∃ s1 s2 d fid l s3,
    add_arcs [("a.py", [(1, 2); (2, 3); (1, 2)])] (example_world, example_handle)
      = (Ok tt, s1) ∧
    add_arcs [("a.py", [(1, 2); (2, 3); (1, 2)])] s1 = (Ok tt, s2) ∧
    tables_of s1 = Some d ∧ tables_of s2 = Some d ∧
    file d = [(fid, "a.py")] ∧
    NoDup (arc d) ∧
    length (filter (fun r => r.1.1.1 = fid) (arc d))
      = length (remove_dups [(1, 2); (2, 3); (1, 2)]) ∧
    arcs "a.py" s2 = (Ok (Some l), s3) ∧
    NoDup l ∧ (∀ a, a ∈ l ↔ a ∈ [(1, 2); (2, 3); (1, 2)]).
Proof.
  assert (unused example_world example_handle) as H.
  { split; [reflexivity|]. vm_compute. intros H. discriminate H. }
  split; [exact H|].
  apply (C5_add_arcs_idempotent example_world example_handle "a.py"
           [(1, 2); (2, 3); (1, 2)] H); reflexivity.
Defined.

(** [_start_using] on a handle of this process that has not used its data
    file, on disk: the file goes. *)
Lemma _start_using_erases w c :
  _pid c = os_getpid w → _have_used c = false → _no_disk c = false →
  _start_using (w, c) = (Ok tt, (without_file (_filename c) w, started c)).
Proof.
  intros Hp Hu Hn. unfold _start_using. do 2 mleaf. simpl.
  rewrite decide_False by (by rewrite Hp; intros []).
  do 2 mleaf. simpl. rewrite Hu. simpl.
  mby ltac:(apply erase_false_eq). simpl. rewrite Hn. reflexivity.
Qed.

Lemma without_file_twice path w :
  without_file path (without_file path w) = without_file path w.
Proof. unfold without_file. simpl. by rewrite delete_delete_eq. Qed.

Lemma _start_using_without_file w c :
  _pid c = os_getpid w → _have_used c = false → _no_disk c = false →
  _start_using (w, c) = _start_using (without_file (_filename c) w, c).
Proof.
  intros Hp Hu Hn. rewrite !_start_using_erases by done.
  by rewrite without_file_twice.
Qed.

Lemma bind_congr {S A B} (m : M S A) (f : A → M S B) s s' :
  m s = m s' → (m ≫= f) s = (m ≫= f) s'.
Proof. intros H. unfold mbind, M_bind. by rewrite H. Qed.

Lemma for_each_ok {A} (l : list A) (body : A → M St unit) (I : St → Prop) s :
  I s → (∀ x s, x ∈ l → I s → ∃ s', body x s = (Ok tt, s') ∧ I s') →
  ∃ s', for_each l body s = (Ok tt, s') ∧ I s'.
Proof.
  revert s. induction l as [|x l IH]; intros s Hs Hb; simpl.
  - by exists s.
  - destruct (Hb x s) as (s1 & H1 & Hs1); [left|done|].
    mrw H1. apply IH; [done|]. intros y s2 Hy. apply Hb. by right.
Qed.

(** Opening a data file that holds the tables [d] of this schema version,
    with a readable [has_arcs] row if any. *)
Lemma _open_db_valid w c d :
  _filename c ≠ memory →
  fs w !! _filename c = Some (Tables d) →
  coverage_schema d = [SCHEMA_VERSION] →
  (∀ v, v ∈ (filter (fun kv => kv.1 = "has_arcs") (meta d)).*2 → is_Some (py_int v)) →
  _open_db (w, c) = (Ok tt, mk w (after_read_db d c) d).
Proof.
  intros Hm Hf Hv Hp.
  assert (∀ c, _filename c ≠ memory → fs w !! _filename c = Some (Tables d) →
               (w, set__dbs (Some {| filename := _filename c; con := None |}) c)
               = mk w c d) as Hmk.
  { intros c0 Hm0 Hf0. unfold mk, mkc. rewrite !decide_False by done.
    rewrite insert_id by done. by rewrite set_fs_fs. }
  unfold _open_db. do 2 mleaf. simpl. rewrite Hmk by done.
  unfold _read_db. mrw (self_mk id w c d). mrw (the_db_mkc w c (Tables d)).
  unfold with_db. mrw (SqliteDb__connect_mk w c d).
  unfold try_except at 1.
  unfold mbind at 1, M_bind at 1.
  erewrite bind_ok; [|apply execute_one_mk; [reflexivity|rewrite Hv; simpl; lia]].
  rewrite Hv. simpl. mleaf.
  mby ltac:(by apply execute_mk).
  unfold after_read_db. unfold select_has_arcs, query in *. simpl.
  set (vs := (filter _ (meta d)).*2) in *. clearbody vs.
  assert (∀ c B (k : unit → M St B),
    (for_each vs (λ row : string,
       match py_int row with
       | Some n =>
           set_self (set__has_arcs (bool_decide (n ≠ 0)))
           ≫= λ _ : (), set_self (λ c : CoverageData, set__has_lines (negb (_has_arcs c)) c)
       | None =>
           raise (Exn "ValueError"
                    [Text "invalid literal for int() with base 10: "; Repr row])
       end) ≫= k) (mk w c d)
    = k tt (mk w (foldl (fun c v => match py_int v with
                      | Some n => set__has_lines (negb (bool_decide (n ≠ 0)))
                                    (set__has_arcs (bool_decide (n ≠ 0)) c)
                      | None => c
                      end) c vs) d)) as Hflags.
  { induction vs as [|v vs IH]; intros c0 B k; simpl.
    - by mleaf.
    - destruct (Hp v) as [n Hn]; [left|]. rewrite Hn.
      mby ltac:(apply set_self_mk; by intros; try destruct c1).
      mby ltac:(apply (set_self_mk (λ c : CoverageData, set__has_lines (negb (_has_arcs c)) c));
                by intros; try destruct c1).
      simpl. rewrite IH; [done|]. intros v' Hv'. apply Hp. by right. }
  rewrite Hflags. clear Hflags.
  mby ltac:(by apply execute_mk).
  unfold select_path_id, query. simpl.
  set (c1 := foldl _ c vs). clearbody c1. clear Hp Hf Hm.
  generalize (file d) as rows. intros rows. revert c1.
  induction rows as [|[i p] rows IH]; intros c1; simpl.
  - done.
  - mby ltac:(apply (set__file_map_mk (fun c => dict_set p i (_file_map c)))).
    simpl. apply IH.
Qed.

Lemma created_db_without_file path w : created_db (without_file path w) = created_db w.
Proof. reflexivity. Qed.

Lemma with_connect_started {A} (body : M St A) w c :
  _no_disk c = false →
  with_connect body (without_file (_filename c) w, started c)
  = body (mk (without_file (_filename c) w) (started c) (created_db w)).
Proof.
  intros Hn. unfold with_connect.
  mby ltac:(apply _connect_new; [done|apply lookup_delete_eq]).
  by rewrite with_db_mk.
Qed.

Lemma in_use_started w c path : _pid c = os_getpid w → in_use (without_file path w) (started c).
Proof. by split. Qed.

Lemma _start_using_raw w c :
  _have_used c = true → _pid c = os_getpid w → _start_using (w, c) = (Ok tt, (w, c)).
Proof.
  intros Hu Hp. unfold _start_using. do 2 mleaf. simpl.
  rewrite decide_False by (by rewrite Hp; intros []).
  do 2 mleaf. simpl. rewrite Hu. simpl. mleaf.
  unfold set_self. simpl. do 2 f_equal. destruct c; simpl in *. by subst.
Qed.

Lemma arcs_started w c f :
  _pid c = os_getpid w → _no_disk c = false →
  arcs f (without_file (_filename c) w, started c)
  = (Ok None, mk (without_file (_filename c) w) (started c) (created_db w)).
Proof.
  intros Hp Hn. unfold arcs. mby ltac:(by apply _start_using_raw).
  rewrite with_connect_started by done.
  mby ltac:(apply _file_id_cached; by left). done.
Qed.

Lemma lines_started w c f :
  _pid c = os_getpid w → _no_disk c = false →
  lines f (without_file (_filename c) w, started c)
  = (Ok None, mk (without_file (_filename c) w) (started c) (created_db w)).
Proof.
  intros Hp Hn. unfold lines. mby ltac:(by apply _start_using_raw).
  unfold has_arcs. mleaf. simpl.
  destruct (_has_arcs c).
  - mrw (arcs_started w c f Hp Hn). mconnect.
    mby ltac:(apply _file_id_cached; by left). done.
  - mleaf. rewrite with_connect_started by done.
    mby ltac:(apply _file_id_cached; by left). done.
Qed.

Lemma file_tracer_started w c f :
  _pid c = os_getpid w → _no_disk c = false →
  file_tracer f (without_file (_filename c) w, started c)
  = (Ok None, mk (without_file (_filename c) w) (started c) (created_db w)).
Proof.
  intros Hp Hn. unfold file_tracer. mby ltac:(by apply _start_using_raw).
  rewrite with_connect_started by done.
  mby ltac:(apply _file_id_cached; by left). done.
Qed.

Lemma measured_contexts_mk w c d :
  in_use w c →
  measured_contexts (mk w c d) = (Ok (remove_dups (context d).*2), mk w c d).
Proof.
  intros Hu. unfold measured_contexts. mrw (_start_using_in_use w c d Hu).
  rewrite with_connect_mk. by apply execute_mk.
Qed.

Lemma foldl_preserves {A B C} (p : A → C) (f : A → B → A) (l : list B) (a : A) :
  (∀ a x, p (f a x) = p a) → p (foldl f a l) = p a.
Proof.
  intros H. revert a. induction l as [|x l IH]; intros a; simpl; [done|].
  by rewrite IH.
Qed.

Lemma after_read_db_keeps d c :
  _pid (after_read_db d c) = _pid c ∧ _filename (after_read_db d c) = _filename c.
Proof.
  unfold after_read_db. split.
  - rewrite (foldl_preserves _pid) by done.
    apply (foldl_preserves _pid). intros a v. by destruct (py_int v).
  - rewrite (foldl_preserves _filename) by done.
    apply (foldl_preserves _filename). intros a v. by destruct (py_int v).
Qed.

(** An operation that starts by [_start_using] runs from the unused handle
    as it does from the started one. *)
Lemma start_twice {A} (k : unit → M St A) w c :
  _pid c = os_getpid w → _have_used c = false → _no_disk c = false →
  (_start_using ≫= k) (w, c)
  = (_start_using ≫= k) (without_file (_filename c) w, started c).
Proof.
  intros Hp Hu Hn. mrw (_start_using_erases w c Hp Hu Hn).
  by mby ltac:(by apply _start_using_raw).
Qed.

Lemma dumps_mk w c d :
  dumps (mk w c d)
  = (Ok (122%N :: zlib_compress w
                    (encode_utf8 w (String.concat "
" (sqlite_iterdump w (Tables d))))), mk w c d).
Proof.
  unfold dumps. rewrite with_connect_mk. mrw (world_mkc id w c (Tables d)).
  unfold dump. mrw (the_db_mkc w c (Tables d)). mrw (world_mkc id w c (Tables d)).
  unfold id. by rewrite db_content_mkc.
Qed.

(** [_connect] of a handle that is not connected, to a data file of this
    schema version. *)
Lemma _connect_valid w c d :
  _dbs c = None → _filename c ≠ memory →
  fs w !! _filename c = Some (Tables d) →
  coverage_schema d = [SCHEMA_VERSION] →
  (∀ v, v ∈ (filter (fun kv => kv.1 = "has_arcs") (meta d)).*2 → is_Some (py_int v)) →
  _connect (w, c) = (Ok tt, mk w (after_read_db d c) d) ∧
  fs (mk w (after_read_db d c) d).1 = fs w.
Proof.
  intros Hd Hm Hx Hv Hp. split.
  - unfold _connect. do 2 mleaf. simpl. rewrite Hd, Hx.
    rewrite decide_True by by eexists. by apply _open_db_valid.
  - destruct (after_read_db_keeps d c) as [_ Hname]. unfold mk, mkc. simpl.
    rewrite Hname. rewrite decide_False by done. by apply insert_id.
Qed.

(** C7, as amended: a handle of this process, on disk, that has not used its
    data file, while a file of that name exists.  Each operation that begins
    with [_start_using()] ([add_lines], [add_arcs], [add_file_tracers] with a
    mapping that is not empty, [touch_file], [touch_files], [lines], [arcs],
    [contexts_by_lineno], [measured_contexts], [file_tracer],
    [set_query_context], [set_query_contexts]) runs as it would if the file
    did not exist: its first step deletes the file, and what follows sees a
    database just created (no context, no file; on a handle without a mode
    [touch_files] raises after the erasure).  [dumps()] and the truth value
    of the store connect without [_start_using()]: on a data file of this
    schema version they return the dump and whether a file was measured, and
    the file stays as it was.  After a [read()] that succeeds,
    [_start_using] changes nothing: the file and its tables stay, and the
    contexts recorded in it are returned. *)
Theorem C7_first_use_erases w c x :
  _pid c = os_getpid w → _have_used c = false → _no_disk c = false →
  _dbs c = None → _filename c ≠ memory →
  fs w !! _filename c = Some x →
  let w0 := without_file (_filename c) w in
  ((∀ line_data, add_lines line_data (w, c) = add_lines line_data (w0, c)) ∧
   (∀ arc_data, add_arcs arc_data (w, c) = add_arcs arc_data (w0, c)) ∧
   (∀ filenames plugin, touch_files filenames plugin (w, c)
                        = touch_files filenames plugin (w0, c)) ∧
   (∀ f, lines f (w, c) = lines f (w0, c)) ∧
   (∀ f, arcs f (w, c) = arcs f (w0, c)) ∧
   measured_contexts (w, c) = measured_contexts (w0, c) ∧
   (∀ f, file_tracer f (w, c) = file_tracer f (w0, c)) ∧
   (∀ ctx, set_query_context ctx (w, c) = set_query_context ctx (w0, c)) ∧
   (∀ contexts, set_query_contexts contexts (w, c) = set_query_contexts contexts (w0, c)) ∧
   (∀ f, contexts_by_lineno f (w, c) = contexts_by_lineno f (w0, c)) ∧
   (∀ f plugin, touch_file f plugin (w, c) = touch_file f plugin (w0, c)) ∧
   (∀ file_tracers, file_tracers ≠ [] →
      add_file_tracers file_tracers (w, c) = add_file_tracers file_tracers (w0, c))) ∧
  (fs w0 !! _filename c = None ∧
   measured_contexts (w, c) = (Ok [], mk w0 (started c) (created_db w)) ∧
   (∀ f, lines f (w, c) = (Ok None, mk w0 (started c) (created_db w))) ∧
   (∀ f, arcs f (w, c) = (Ok None, mk w0 (started c) (created_db w))) ∧
   (∀ f, file_tracer f (w, c) = (Ok None, mk w0 (started c) (created_db w))) ∧
   (_has_lines c = false → _has_arcs c = false → ∀ filenames plugin,
      touch_files filenames plugin (w, c)
      = (Raise (CoverageException [Text "Can't touch files in an empty CoverageData"]),
         mk w0 (started c) (created_db w)))) ∧
  (∀ d, x = Tables d → coverage_schema d = [SCHEMA_VERSION] →
        (∀ v, v ∈ (filter (fun kv => kv.1 = "has_arcs") (meta d)).*2 → is_Some (py_int v)) →
        fs (mk w (after_read_db d c) d).1 = fs w ∧
        dumps (w, c)
        = (Ok (122%N :: zlib_compress w
                          (encode_utf8 w (String.concat "
" (sqlite_iterdump w (Tables d))))), mk w (after_read_db d c) d) ∧
        __nonzero__ (w, c)
        = (Ok (bool_decide (file d ≠ [])), mk w (after_read_db d c) d)) ∧
  (∀ d, x = Tables d → coverage_schema d = [SCHEMA_VERSION] →
        (∀ v, v ∈ (filter (fun kv => kv.1 = "has_arcs") (meta d)).*2 → is_Some (py_int v)) →
        ∃ c1, read (w, c) = (Ok tt, mk w c1 d) ∧
              fs (mk w c1 d).1 = fs w ∧
              _start_using (mk w c1 d) = (Ok tt, mk w c1 d) ∧
              measured_contexts (mk w c1 d)
              = (Ok (remove_dups (context d).*2), mk w c1 d)).
Proof.
  intros Hp Hu Hn Hd Hm Hx w0. subst w0.
  pose proof (_start_using_without_file w c Hp Hu Hn) as Hs.
  pose proof (_start_using_erases w c Hp Hu Hn) as He.
  pose proof (in_use_started w c (_filename c) Hp) as Hin.
  split; [|split; [|split]].
  - repeat split; intros; try (by apply bind_congr).
    destruct file_tracers; [done|]. by apply bind_congr.
  - split; [apply lookup_delete_eq|].
    split; [|split; [|split; [|split]]].
    + unfold measured_contexts. mrw He. rewrite with_connect_started by done.
      by apply execute_mk.
    + intros f. rewrite <- (lines_started w c f Hp Hn). by apply start_twice.
    + intros f. rewrite <- (arcs_started w c f Hp Hn). by apply start_twice.
    + intros f. rewrite <- (file_tracer_started w c f Hp Hn). by apply start_twice.
    + intros Hl Ha filenames plugin. unfold touch_files. mrw He.
      rewrite with_connect_started by done.
      mrw (self_mk id (without_file (_filename c) w) (started c) (created_db w)).
      simpl. rewrite Hl, Ha. simpl. by mleaf.
  - intros d -> Hv Hpi.
    destruct (_connect_valid w c d Hd Hm Hx Hv Hpi) as [Hc Hfs].
    split; [exact Hfs|]. split.
    + unfold dumps at 1, with_connect. mrw Hc. rewrite with_db_mk.
      pose proof (dumps_mk w (after_read_db d c) d) as Hdm.
      unfold dumps in Hdm. rewrite with_connect_mk in Hdm. exact Hdm.
    + unfold __nonzero__. do 2 mleaf. simpl. rewrite Hd, Hx. simpl.
      eassert (Hrows : with_connect
                 (rows ← execute "select * from file limit 1" "file" select_file_limit_1;
                  mret (if rows is [] then false else true)) (w, c) = _).
      { unfold with_connect. mrw Hc. rewrite with_db_mk.
        erewrite bind_ok; [|by apply execute_mk]. reflexivity. }
      unfold try_except. rewrite Hrows. by destruct (file d).
  - intros d -> Hv Hpi. exists (set__have_used true (after_read_db d c)).
    destruct (_connect_valid w c d Hd Hm Hx Hv Hpi) as [Hc _].
    assert (read (w, c)
            = (Ok tt, mk w (set__have_used true (after_read_db d c)) d)) as Hr.
    { unfold read, with_connect.
      mrw Hc. rewrite with_db_mk. apply set_self_mk; by intros; try destruct c0. }
    destruct (after_read_db_keeps d c) as [Hpid Hname].
    assert (in_use w (set__have_used true (after_read_db d c))) as Hin'.
    { split; [done|]. simpl. by rewrite Hpid. }
    split; [exact Hr|]. split; [|split].
    + unfold mk, mkc. simpl.
      rewrite Hname. rewrite decide_False by done. by apply insert_id.
    + by apply _start_using_in_use.
    + by apply measured_contexts_mk.
Qed.

Lemma C7_first_use_erases_witness :
  fs (example_world_with (Tables example_disk_db)) !! _filename example_handle
    = Some (Tables example_disk_db) ∧
  (∃ s, measured_contexts (example_world_with (Tables example_disk_db), example_handle)
        = (Ok [], s) ∧ context <$> tables_of s = Some []) ∧
  (∃ s, (read;; measured_contexts)
          (example_world_with (Tables example_disk_db), example_handle)
        = (Ok ["test_a"], s) ∧ tables_of s = Some example_disk_db).
Proof.
  assert (fs (example_world_with (Tables example_disk_db)) !! _filename example_handle
          = Some (Tables example_disk_db)) as H by (vm_compute; reflexivity).
  split; [exact H|].
  assert (_filename example_handle ≠ memory) as Hm
    by (vm_compute; intros Hm; discriminate Hm).
  destruct (C7_first_use_erases (example_world_with (Tables example_disk_db))
              example_handle (Tables example_disk_db) eq_refl eq_refl eq_refl eq_refl Hm H)
    as (_ & (_ & Hc & _) & _ & Hr).
  split.
  - eexists. split; [exact Hc|]. reflexivity.
  - destruct (Hr example_disk_db eq_refl eq_refl) as (c1 & Hread & _ & _ & Hmc).
    + intros v Hv. vm_compute in Hv. apply list_elem_of_singleton in Hv. subst v.
      by eexists.
    + eexists. split.
      * unfold mbind, M_bind. rewrite Hread. exact Hmc.
      * apply tables_of_mk.
Defined.

(** C7 as stated fails: [dumps()] uses the database, and on a new handle
    whose data file exists it returns the dump of that file and erases
    nothing: the file is there as it was. *)
Lemma C7_counterexample :
  _have_used example_handle = false ∧
  ∃ blob s,
    dumps (example_world_with (Tables example_disk_db), example_handle) = (Ok blob, s) ∧
    fs s.1 !! _filename example_handle = Some (Tables example_disk_db) ∧
    tables_of s = Some example_disk_db.
Proof.
  split; [reflexivity|]. eexists _, _. split; [vm_compute; reflexivity|].
  split; vm_compute; reflexivity.
Qed.

(** One step of a computation whose first action raises, by [tac]. *)
Ltac mraise tac := rewrite ?bind_assoc; (erewrite bind_raise; [|tac]).


Lemma execute_mkc_error {A} sql table (st : stmt A) w c x msg :
  run_stmt table st x = inr msg →
  ∃ e, execute sql table st (mkc w c x) = (Raise e, mkc w c x).
Proof.
  intros H. unfold execute.
  mrw (the_db_mkc w c x). mrw (world_mkc id w c x).
  unfold id. rewrite db_content_mkc, H. unfold execute_error.
  mrw (world_mkc id w c x). eauto.
Qed.

Lemma try_except_raise {S A} (m : M S A) handler s e s' :
  m s = (Raise e, s') → try_except m handler s = handler e s'.
Proof. intros H. unfold try_except. by rewrite H. Qed.






Lemma nbb_bind {A B} (m : M St A) (f : A → M St B) :
  no_bad_blob m → (∀ a, no_bad_blob (f a)) → no_bad_blob (m ≫= f).
Proof. intros Hm Hf. eapply hoare_bind; [exact Hm|]. intros a. apply Hf. Qed.

Lemma nbb_ret {A} (a : A) : no_bad_blob (mret a).
Proof. by apply hoare_ret. Qed.

Lemma nbb_raise {A} e : ¬ is_bad_blob e → no_bad_blob (raise e : M St A).
Proof. intros H. by apply hoare_raise. Qed.

Lemma nbb_self {A} (g : CoverageData → A) : no_bad_blob (self_ g).
Proof. by intros s _. Qed.

Lemma nbb_world {A} (g : World → A) : no_bad_blob (world_ g).
Proof. by intros s _. Qed.

Lemma nbb_set_self g : no_bad_blob (set_self g).
Proof. by intros s _. Qed.

Lemma nbb_set_world g : no_bad_blob (set_world g).
Proof. by intros s _. Qed.

Lemma nbb_for_each {A} (l : list A) (body : A → M St unit) :
  (∀ x, no_bad_blob (body x)) → no_bad_blob (for_each l body).
Proof. intros H. apply hoare_for_each. intros x _. apply H. Qed.

Lemma nbb_try_except {A} (m : M St A) handler :
  (∀ e, no_bad_blob (handler e)) → no_bad_blob (try_except m handler).
Proof.
  intros H. eapply hoare_try_except with (E' := fun _ _ => True).
  - intros s _. by destruct (m s) as [[]].
  - intros e. apply H.
Qed.

(** An exception whose message does not start as the bad-blob message does,
    or whose class is another, is no bad-blob error. *)
Ltac not_bad_blob :=
  let data := fresh "data" in let H := fresh "H" in
  intros [data H]; unfold bad_blob, CoverageException, malformed_file, wrong_schema,
    sqlite3_Error in H; discriminate H.

Create HintDb nbb.
#[local] Hint Resolve nbb_ret nbb_self nbb_world nbb_set_self nbb_set_world : nbb.

(** Discharges [no_bad_blob] goals along the structure of the computation. *)
Ltac nbb :=
  repeat first
    [ apply nbb_bind; [|intros ?]
    | apply nbb_ret | apply nbb_self | apply nbb_world | apply nbb_set_self
    | apply nbb_set_world
    | apply nbb_raise; not_bad_blob
    | apply nbb_for_each; intros ?
    | apply nbb_try_except; intros ?
    | progress auto with nbb
    | match goal with
      | |- no_bad_blob (match ?x with _ => _ end) => destruct x
      | |- no_bad_blob (let '(_, _) := ?x in _) => destruct x
      end ].

Lemma nbb_the_db : no_bad_blob the_db.
Proof. unfold the_db. nbb. Qed.
#[local] Hint Resolve nbb_the_db : nbb.

Lemma nbb_db_store x db : no_bad_blob (db_store x db).
Proof. unfold db_store. nbb. Qed.
#[local] Hint Resolve nbb_db_store : nbb.

Lemma nbb_execute_error {A} db msg : no_bad_blob (execute_error db msg : M St A).
Proof. unfold execute_error. nbb. Qed.
#[local] Hint Resolve @nbb_execute_error : nbb.

Lemma nbb_execute {A} sql table (st : stmt A) : no_bad_blob (execute sql table st).
Proof. unfold execute. nbb. Qed.
#[local] Hint Resolve @nbb_execute : nbb.

Lemma nbb_execute_one {A} sql table (st : stmt (list A)) :
  no_bad_blob (execute_one sql table st).
Proof. unfold execute_one. nbb. Qed.
#[local] Hint Resolve @nbb_execute_one : nbb.

Lemma nbb_pragma sql : no_bad_blob (pragma sql).
Proof. unfold pragma. nbb. Qed.
#[local] Hint Resolve nbb_pragma : nbb.

Lemma nbb_SqliteDb__connect : no_bad_blob SqliteDb__connect.
Proof. unfold SqliteDb__connect. nbb. Qed.
#[local] Hint Resolve nbb_SqliteDb__connect : nbb.

Lemma nbb_executescript script : no_bad_blob (executescript script).
Proof. unfold executescript. nbb. Qed.
#[local] Hint Resolve nbb_executescript : nbb.

Lemma nbb__read_db : no_bad_blob _read_db.
Proof.
  unfold _read_db, with_db. nbb.
Qed.

Lemma take_1_head (data : bytes) : take 1 data = [122%N] ↔ head data = Some 122%N.
Proof. destruct data as [|b data]; simpl; [done|]. rewrite take_0. naive_solver. Qed.

(** What [dumps()] returns, whenever it returns: the byte ['z'] and then the
    compressed encoding of the dump of the database the handle is connected
    to. *)
Lemma dumps_blob s blob s' :
  dumps s = (Ok blob, s') →
  ∃ db, _dbs s'.2 = Some db ∧
        blob = 122%N :: zlib_compress s'.1
                 (encode_utf8 s'.1
                    (String.concat "
" (sqlite_iterdump s'.1 (db_content s'.1 db)))).
Proof.
  intros H.
  assert (hoare (fun _ => True) dumps
            (fun blob s' =>
               ∃ db, _dbs s'.2 = Some db ∧
                     blob = 122%N :: zlib_compress s'.1
                              (encode_utf8 s'.1
                                 (String.concat "
" (sqlite_iterdump s'.1 (db_content s'.1 db)))))
            (fun _ _ => True)) as Hh.
  { unfold dumps, with_connect, with_db.
    eapply hoare_bind with (Q := fun _ _ => True);
      [by intros s0 _; destruct (_connect s0) as [[]]|].
    intros _.
    eapply hoare_bind with (Q := fun _ _ => True);
      [by intros s0 _; destruct (SqliteDb__connect s0) as [[]]|].
    intros _.
    eapply hoare_bind; [apply hoare_world|]. intros w0. simpl.
    eapply hoare_bind
      with (Q := fun text s =>
                   w0 = s.1 ∧
                   ∃ db, _dbs s.2 = Some db ∧
                         text = String.concat "
" (sqlite_iterdump s.1 (db_content s.1 db))).
    { unfold dump. intros s0 [-> _]. unfold the_db.
      unfold mbind, M_bind, self_, world_. simpl.
      destruct (_dbs s0.2) as [db|] eqn:E; simpl; [|done].
      split; [done|]. by exists db. }
    intros text. apply hoare_ret. intros s0 (-> & db & Hdb & ->). by exists db. }
  specialize (Hh s I). by rewrite H in Hh.
Qed.

(** C8: [loads(data)] raises the bad-blob error exactly when [data] does not
    start with the byte ['z'] (122).  Whenever [dumps()] returns, what it
    returns is ['z'] followed by the compressed encoding of the SQL text dump
    (the lines of [iterdump] joined by newlines) of the database the handle
    is connected to; on a handle connected to the tables [d] it does return,
    with the dump of [d], and leaves the store as it was.  So [loads] raises
    no bad-blob error on a result of [dumps]. *)
Theorem C8_blob_prefix :
  (∀ data s, (∃ e s', loads data s = (Raise e, s') ∧ is_bad_blob e)
             ↔ head data ≠ Some 122%N) ∧
  (∀ s blob s', dumps s = (Ok blob, s') →
     head blob = Some 122%N ∧
     ∃ db, _dbs s'.2 = Some db ∧
           blob = 122%N :: zlib_compress s'.1
                    (encode_utf8 s'.1
                       (String.concat "
" (sqlite_iterdump s'.1 (db_content s'.1 db))))) ∧
  (∀ w c d,
     dumps (mk w c d)
     = (Ok (122%N :: zlib_compress w
                       (encode_utf8 w (String.concat "
" (sqlite_iterdump w (Tables d))))), mk w c d)) ∧
  (∀ s blob s1, dumps s = (Ok blob, s1) →
     ∀ s2 e s3, loads blob s2 = (Raise e, s3) → ¬ is_bad_blob e).
Proof.
  assert (∀ data, head data = Some 122%N → no_bad_blob (loads data)) as Hz.
  { intros data Hh. unfold loads, with_db.
    rewrite decide_False by (intros H; apply H; by apply take_1_head).
    nbb. }
  split; [|split; [|split]].
  - intros data s. split.
    + intros (e & s' & Hl & Hb) Hh.
      specialize (Hz data Hh s I). rewrite Hl in Hz. done.
    + intros Hh. exists (bad_blob data), s. split; [|by exists data].
      unfold loads. rewrite decide_True by (by rewrite take_1_head). by mleaf.
  - intros s blob s' H. destruct (dumps_blob s blob s' H) as (db & Hdb & ->).
    split; [done|]. by exists db.
  - intros w c d. unfold dumps. rewrite with_connect_mk.
    mrw (world_mkc id w c (Tables d)). unfold dump.
    mrw (the_db_mkc w c (Tables d)). mrw (world_mkc id w c (Tables d)). mleaf.
    unfold id. by rewrite db_content_mkc.
  - intros s blob s1 H s2 e s3 Hl. destruct (dumps_blob s blob s1 H) as (db & Hdb & ->).
    match type of Hl with loads ?b _ = _ => specialize (Hz b eq_refl s2 I) end.
    by rewrite Hl in Hz.
Qed.

Module ReFacts.
Import Re.

Lemma match_here_star a re s :
  match_here ((a, true) :: re) s =
  match_here re s ||
  match s with
  | c :: s' => atom_matches a c && match_here ((a, true) :: re) s'
  | [] => false
  end.
Proof. by destruct s. Qed.

Lemma match_here_complete re found after :
  matches re found → match_here re (found ++ after) = true.
Proof.
  induction 1 as [|a c re s Ha _ IH|a re s _ IH|a c re s Ha _ IH]; simpl app.
  - done.
  - simpl. by rewrite Ha, IH.
  - by rewrite match_here_star, IH.
  - by rewrite match_here_star, Ha, IH, orb_true_r.
Qed.

Lemma match_here_sound re s :
  match_here re s = true → ∃ found after, s = found ++ after ∧ matches re found.
Proof.
  revert s. induction re as [|[a [|]] re IH]; intros s.
  - intros _. exists [], s. split; [done|constructor].
  - induction s as [|c s IHs]; rewrite match_here_star.
    + rewrite orb_false_r. intros (found & after & -> & Hm)%IH.
      exists found, after. split; [done|]. by apply matches_star_stop.
    + intros [H|[Ha H]%andb_true_iff]%orb_true_iff.
      * apply IH in H as (found & after & -> & Hm).
        exists found, after. split; [done|]. by apply matches_star_stop.
      * apply IHs in H as (found & after & -> & Hm).
        exists (c :: found), after. split; [done|]. by apply matches_star_more.
  - destruct s as [|c s]; simpl; [done|].
    intros [Ha (found & after & -> & Hm)%IH]%andb_true_iff.
    exists (c :: found), after. split; [done|]. by apply matches_one.
Qed.

Lemma search_items_spec re s :
  search_items re s = true ↔
  ∃ before found after, s = before ++ found ++ after ∧ matches re found.
Proof.
  induction s as [|c s IH]; simpl.
  - rewrite orb_false_r. split.
    + intros (found & after & -> & Hm)%match_here_sound. by exists [], found, after.
    + intros (before & found & after & H & Hm).
      symmetry in H. apply app_eq_nil in H as [-> H].
      rewrite <- H. by apply match_here_complete.
  - rewrite orb_true_iff, IH. split.
    + intros [(found & after & H & Hm)%match_here_sound
             |(before & found & after & -> & Hm)].
      * exists [], found, after. by rewrite <- H.
      * by exists (c :: before), found, after.
    + intros ([|c' before] & found & after & H & Hm).
      * left. simpl in H. rewrite H. by apply match_here_complete.
      * right. injection H as -> ->. by exists before, found, after.
Qed.

Lemma search_true pattern s : search pattern s = Some true ↔ has_match pattern s.
Proof.
  unfold search, has_match. destruct (parse pattern) as [re|]; simpl.
  - split.
    + intros [= H]. apply search_items_spec in H as (before & found & after & H & Hm).
      by exists re, before, found, after.
    + intros (re' & before & found & after & [= <-] & H & Hm). f_equal.
      apply search_items_spec. by exists before, found, after.
  - split; [done|]. by intros (? & ? & ? & ? & ? & _).
Qed.

Lemma matches_length re found :
  matches re found → Forall (fun it : item => it.2 = false) re → length found = length re.
Proof.
  induction 1; intros Hf; simpl.
  - done.
  - f_equal. apply IHmatches. by inversion Hf.
  - by inversion Hf.
  - by inversion Hf.
Qed.

Lemma search_agrees : agrees search.
Proof.
  intros pattern s [re Hre]. unfold search at 1. rewrite Hre. simpl.
  eexists. split; [reflexivity|]. rewrite <- search_true. unfold search. rewrite Hre.
  simpl. split; [by intros ->|by intros [= ->]].
Qed.

End ReFacts.

Lemma mapM_total {A B} (f : A → option B) (g : A → B) (l : list A) :
  (∀ x, x ∈ l → f x = Some (g x)) → mapM f l = Some (g <$> l).
Proof.
  induction l as [|x l IH]; intros H; [done|].
  cbn [mapM]. rewrite (H x) by left. cbn [mbind option_bind].
  rewrite IH; [done|]. intros y Hy. apply H. by right.
Qed.

(** [X regexp ? or ...] when no call raises: true exactly when some pattern
    finds a match in [X]. *)
Lemma regexp_any_total search X patterns :
  (∀ p, p ∈ patterns → is_Some (search p X)) →
  ∃ b, regexp_any search X patterns = Some b ∧
       (b = true ↔ ∃ p, p ∈ patterns ∧ search p X = Some true).
Proof.
  induction patterns as [|p ps IH]; intros Hs; simpl.
  - exists false. split; [done|]. split; [done|]. by intros (? & ?%elem_of_nil & _).
  - unfold regexp_operator, _regexp. destruct (Hs p) as [[|] Hp]; [left|..]; rewrite Hp.
    + exists true. split; [done|]. split; [|done]. intros _. exists p. split; [left|done].
    + destruct IH as (b & Hb & Hiff); [intros q Hq; apply Hs; by right|].
      exists b. split; [done|]. rewrite Hiff. split.
      * intros (q & Hq & Hm). exists q. split; [by right|done].
      * intros (q & [-> | Hq]%elem_of_cons & Hm); [congruence|]. by exists q.
Qed.

(** The ids [select id from context where context regexp ? or ...] gives
    when no call raises. *)
Lemma select_context_regexp_spec search patterns d :
  (∀ p name, p ∈ patterns → name ∈ (context d).*2 → is_Some (search p name)) →
  ∃ ids, select_context_regexp search patterns d = SqlOk ids d ∧
    ∀ id, id ∈ ids ↔
          ∃ name p, (id, name) ∈ context d ∧ p ∈ patterns ∧ search p name = Some true.
Proof.
  intros Hs. unfold select_context_regexp.
  set (b := fun name : string => default false (regexp_any search name patterns)).
  assert (∀ i name, (i, name) ∈ context d →
            regexp_any search name patterns = Some (b name) ∧
            (b name = true ↔ ∃ p, p ∈ patterns ∧ search p name = Some true)) as Hb.
  { intros i name Hin. destruct (regexp_any_total search name patterns) as (x & Hx & Hiff).
    - intros p Hp. apply Hs; [done|]. apply list_elem_of_fmap. by exists (i, name).
    - unfold b. rewrite Hx. done. }
  rewrite (mapM_total _ (fun r : Z * string => (r, b r.2))).
  2:{ intros [i name] Hr. simpl. by rewrite (proj1 (Hb i name Hr)). }
  eexists. split; [reflexivity|].
  intros i. rewrite !list_elem_of_fmap. split.
  - intros (rn & -> & (rb & -> & [Htrue Hin]%list_elem_of_filter)%list_elem_of_fmap).
    apply list_elem_of_fmap in Hin as ([i' name] & -> & Hr').
    simpl in *. apply (Hb i' name Hr') in Htrue as (p & Hp & Hm). by exists name, p.
  - intros (name & p & Hin & Hp & Hm). exists (i, name). split; [done|].
    apply list_elem_of_fmap. exists ((i, name), true). split; [done|].
    apply list_elem_of_filter. split; [done|].
    apply list_elem_of_fmap. exists (i, name). split; [|done]. f_equal. symmetry.
    apply (Hb i name Hin). by exists p.
Qed.

(** C4, as amended: for every pair of strings, the function registered as
    [REGEXP] gives what [re.search] gives with the first argument [text] as
    the regular expression and the second argument [pattern] as the string
    searched (whatever search function [re.search] is); and since SQLite
    calls it with the right operand of the operator first, [context regexp ?]
    is true exactly when the pattern given has a search match in the context
    name, so that the statement of [set_query_contexts] selects the ids of
    the contexts in whose name some pattern has a match.  Where the search
    function gives the patterns of ordinary characters, [.] and [*] their
    meaning, this reads: for such a [text], the function is true exactly when
    some part of [pattern] is matched by [text]. *)
Theorem C4_regexp_searches_second_argument (search : string → string → option bool) :
  (∀ text pattern, _regexp search text pattern = search text pattern) ∧
  (∀ context_name pattern,
     regexp_operator search context_name pattern = search pattern context_name) ∧
  (∀ patterns d,
     (∀ p name, p ∈ patterns → name ∈ (context d).*2 → is_Some (search p name)) →
     ∃ ids, select_context_regexp search patterns d = SqlOk ids d ∧
       ∀ id, id ∈ ids ↔
             ∃ name p, (id, name) ∈ context d ∧ p ∈ patterns ∧
                       search p name = Some true) ∧
  (Re.agrees search →
   ∀ text, is_Some (Re.parse text) →
     (∀ pattern, _regexp search text pattern = Some true ↔ Re.has_match text pattern) ∧
     (∀ context_name,
        regexp_operator search context_name text = Some true ↔
        Re.has_match text context_name)).
Proof.
  split; [done|]. split; [done|]. split; [apply select_context_regexp_spec|].
  intros Hag text Ht.
  assert (∀ s, search text s = Some true ↔ Re.has_match text s) as H.
  { intros s. destruct (Hag text s Ht) as (b & Hb & Hiff). rewrite Hb, <- Hiff.
    split; [by intros [= ->]|by intros ->]. }
  split; intros; apply H.
Qed.

Lemma C4_regexp_searches_second_argument_witness :
  Re.agrees Re.search ∧
  (_regexp Re.search "t.*_b" "my test_b" = Some true ↔ Re.has_match "t.*_b" "my test_b").
Proof.
  split; [exact ReFacts.search_agrees|].
  destruct (C4_regexp_searches_second_argument Re.search) as (_ & _ & _ & H).
  destruct (H ReFacts.search_agrees "t.*_b") as [Hr _].
  - vm_compute. eexists. reflexivity.
  - apply Hr.
Defined.

(** C4 as stated fails: with [text = "a"] and [pattern = "ab"] the function is
    true, since [re.search("a", "ab")] matches, though the pattern "ab" has no
    match in the text "a". *)
Lemma C4_counterexample :
  ¬ (_regexp Re.search "a" "ab" = Some true ↔ Re.has_match "ab" "a").
Proof.
  intros [H _]. specialize (H eq_refl).
  destruct H as (re & before & found & after & [= <-] & Hs & Hm).
  apply ReFacts.matches_length in Hm; [|by repeat constructor].
  apply (f_equal length) in Hs. rewrite !length_app, Hm in Hs. simpl in Hs. lia.
Qed.

Lemma should_start_context_Some {Frame} (l : list (Frame → option string)) frame ctx :
  should_start_context l frame = Some ctx ↔
  ∃ before switcher after,
    l = before ++ switcher :: after ∧
    (∀ t, t ∈ before → t frame = None) ∧ switcher frame = Some ctx.
Proof.
  induction l as [|sw l IH]; simpl.
  - split; [done|]. intros (before & ? & ? & H & _). by destruct before.
  - destruct (sw frame) as [new_context|] eqn:E.
    + split.
      * intros [= <-]. exists [], sw, l. split; [done|]. split; [|done].
        intros t Ht. by apply elem_of_nil in Ht.
      * intros ([|t before] & switcher & after & H & Hb & Hs).
        -- injection H as <- _. congruence.
        -- injection H as <- _. rewrite Hb in E by left. done.
    + rewrite IH. split.
      * intros (before & switcher & after & -> & Hb & Hs).
        exists (sw :: before), switcher, after. split; [done|]. split; [|done].
        intros t [->|Ht]%elem_of_cons; auto.
      * intros ([|t before] & switcher & after & H & Hb & Hs).
        -- injection H as <- _. congruence.
        -- injection H as <- ->. exists before, switcher, after.
           split; [done|]. split; [|done]. intros t' Ht'. apply Hb. by right.
Qed.

Lemma should_start_context_None {Frame} (l : list (Frame → option string)) frame :
  should_start_context l frame = None ↔ ∀ switcher, switcher ∈ l → switcher frame = None.
Proof.
  induction l as [|sw l IH]; simpl.
  - split; [|done]. intros _ t Ht. by apply elem_of_nil in Ht.
  - destruct (sw frame) eqn:E.
    + split; [done|]. intros H. rewrite H in E by left. done.
    + rewrite IH. split.
      * intros H t [->|Ht]%elem_of_cons; auto.
      * intros H t Ht. apply H. by right.
Qed.

(** C10: [combine_context_switchers] returns [None] for the empty list and
    the switcher itself for a list of one; for a longer list it returns a
    switcher that gives, for every frame, the result of the first switcher of
    the list whose result is not [None], and [None] exactly when every
    switcher gives [None]. *)
Theorem C10_combine_context_switchers {Frame : Type} :
  combine_context_switchers (@nil (Frame → option string)) = None ∧
  (∀ switcher : Frame → option string,
     combine_context_switchers [switcher] = Some switcher) ∧
  (∀ (s1 s2 : Frame → option string) rest,
     ∃ combined,
       combine_context_switchers (s1 :: s2 :: rest) = Some combined ∧
       ∀ frame,
         (∀ ctx, combined frame = Some ctx ↔
            ∃ before switcher after,
              s1 :: s2 :: rest = before ++ switcher :: after ∧
              (∀ t, t ∈ before → t frame = None) ∧ switcher frame = Some ctx) ∧
         (combined frame = None ↔
            ∀ switcher, switcher ∈ s1 :: s2 :: rest → switcher frame = None)).
Proof.
  split; [done|]. split; [done|].
  intros s1 s2 rest. exists (should_start_context (s1 :: s2 :: rest)).
  split; [done|]. intros frame. split.
  - intros ctx. apply should_start_context_Some.
  - apply should_start_context_None.
Qed.

(** C2 fails on the code.  In the first merge two files of the other store
    alias to one local path in one context: the dictionary [lines] of
    [update] keeps the numbits of the last of them only, and line 1 is lost
    (the claim gives 1, 2 and 5).  Where no two files of the other store
    collide the union is taken (the scenario of the spec), and in arc mode
    the same collision keeps the arcs of both files. *)
Theorem C2_update_overwrites_colliding_lines :
  example_merge.1 = Ok (Some [2; 5]) ∧
  example_merge_spec.1 = Ok (Some [1; 2; 3]) ∧
  example_merge_arcs.1 = Ok (Some [(5, 6); (1, 2); (2, 3)]).
Proof. by vm_compute. Qed.

(** *** The invariant of the store *)

Lemma using_store_inv l a s : using_inv l a s → store_inv l a s.
Proof. intros (?&?&?&?&?&?&?). by repeat split. Qed.

Lemma using_inv_weaken l a l' a' s :
  (l' = true → l = true) → (a' = true → a = true) → using_inv l a s → using_inv l' a' s.
Proof. intros Hl Ha (?&?&?&?&?&?&?). repeat split; auto. Qed.

Lemma data_ok_core c c' x :
  _has_lines c' = _has_lines c → _has_arcs c' = _has_arcs c → data_ok c x → data_ok c' x.
Proof. intros Hl Ha. destruct x; simpl; [done..|]. by rewrite Hl, Ha. Qed.

(** A change of the handle outside [core] and [_dbs]. *)
Lemma using_inv_set_self l a g s :
  (∀ c, core (g c) = core c) → (∀ c, _dbs (g c) = _dbs c) →
  using_inv l a s → using_inv l a (s.1, g s.2).
Proof.
  intros Hc Hd (Hwf & Hne & Hl & Ha & Hu & Hp & Hlive).
  destruct s as [w c]. simpl in *.
  specialize (Hc c). unfold core in Hc. injection Hc as Hc1 Hc2 Hc3 Hc4 Hc5 Hc6.
  unfold using_inv, live. simpl.
  rewrite Hc1, Hc2, Hc3, Hc4, Hc5, Hc6, Hd.
  repeat split; auto.
  unfold live in Hlive. simpl in Hlive. destruct (_dbs c); [|done].
  by apply (data_ok_core c).
Qed.

Lemma keeps_set_self l a g :
  (∀ c, core (g c) = core c) → (∀ c, _dbs (g c) = _dbs c) → keeps l a (set_self g).
Proof. intros Hc Hd s Hs. by apply using_inv_set_self. Qed.

Lemma keeps_bind {A B} l a (m : M St A) (f : A → M St B) :
  keeps l a m → (∀ x, keeps l a (f x)) → keeps l a (m ≫= f).
Proof. intros Hm Hf. eapply hoare_bind; [exact Hm|]. intros x. apply Hf. Qed.

Lemma keeps_ret {A} l a (x : A) : keeps l a (mret x).
Proof. by apply hoare_ret. Qed.

Lemma keeps_raise {A} l a e : keeps l a (raise e : M St A).
Proof. by apply hoare_raise. Qed.

Lemma keeps_self {A} l a (g : CoverageData → A) : keeps l a (self_ g).
Proof. by intros s Hs. Qed.

Lemma keeps_world {A} l a (g : World → A) : keeps l a (world_ g).
Proof. by intros s Hs. Qed.

Lemma keeps_for_each {A} l a (xs : list A) (body : A → M St unit) :
  (∀ x, keeps l a (body x)) → keeps l a (for_each xs body).
Proof. intros H. apply hoare_for_each. intros x _. apply H. Qed.

(** Storing a content that is [data_ok] in the database of the handle. *)
Lemma db_store_using l a s db x :
  using_inv l a s → _dbs s.2 = Some db → data_ok s.2 x →
  ∃ s', db_store x db s = (Ok tt, s') ∧ using_inv l a s' ∧
        core s'.2 = core s.2 ∧
        ∃ db', _dbs s'.2 = Some db' ∧ filename db' = filename db ∧
               db_content s'.1 db' = x.
Proof.
  intros (Hwf & Hne & Hl & Ha & Hu & Hp & Hlive) Hd Hx.
  destruct s as [w c]. simpl in *. unfold db_store.
  destruct (decide (filename db = memory)) as [Hm|Hm].
  - eexists. split; [reflexivity|]. simpl.
    assert (db_content w {| filename := filename db; con := Some x |} = x) as Hc.
    { unfold db_content. simpl. by rewrite decide_True. }
    split; [|split; [by destruct c|]].
    + unfold using_inv, live. simpl. rewrite Hc. repeat split; auto.
    + eexists. split; [reflexivity|]. split; [done|]. exact Hc.
  - eexists. split; [reflexivity|]. simpl.
    assert (db_content (set_fs (<[filename db:=x]> (fs w)) w) db = x) as Hc.
    { unfold db_content. simpl. rewrite decide_False by done. by rewrite lookup_insert_eq. }
    split; [|split; [done|]].
    + unfold using_inv, live. simpl. rewrite Hd, Hc. repeat split; auto.
    + exists db. split; [done|]. split; [done|]. exact Hc.
Qed.

Lemma data_ok_stmt c l a d d' :
  (l = true → _has_lines c = true) → (a = true → _has_arcs c = true) →
  ((line_bits d' ≠ [] → line_bits d ≠ [] ∨ l = true) ∧
   (arc d' ≠ [] → arc d ≠ [] ∨ a = true)) →
  data_ok c (Tables d) → data_ok c (Tables d').
Proof. intros Hl Ha [H1 H2] [H3 H4]. split; intros H; [destruct (H1 H)|destruct (H2 H)]; auto. Qed.

Lemma keeps_the_db l a :
  hoare (using_inv l a) the_db
    (fun db s => using_inv l a s ∧ _dbs s.2 = Some db) (fun _ => using_inv l a).
Proof.
  intros s Hs. unfold the_db, mbind, M_bind, self_. simpl.
  destruct (_dbs s.2) eqn:E; simpl; auto.
Qed.

Lemma keeps_execute_error {A} l a db msg : keeps l a (execute_error db msg : M St A).
Proof.
  unfold execute_error. apply keeps_bind; [apply keeps_world|]. intros w. apply keeps_raise.
Qed.

Lemma keeps_execute {A} l a sql table (st : stmt A) :
  stmt_keeps l a st → keeps l a (execute sql table st).
Proof.
  intros Hst. unfold execute.
  eapply hoare_bind; [apply keeps_the_db|]. intros db.
  eapply hoare_bind; [apply hoare_world|]. intros w s (-> & Hs & Hd). unfold id.
  pose proof Hs as (Hwf & Hne & Hl & Ha & Hu & Hp & Hlive).
  unfold live in Hlive. rewrite Hd in Hlive.
  destruct (db_content s.1 db) as [h err| |d] eqn:Hc; simpl.
  - exact (keeps_execute_error (A:=A) l a db err s Hs).
  - exact (keeps_execute_error (A:=A) l a db ("no such table: " +:+ table) s Hs).
  - destruct (st d) as [r d'|msg] eqn:Hr;
      [|exact (keeps_execute_error (A:=A) l a db msg s Hs)].
    destruct (db_store_using l a s db (Tables d') Hs Hd) as (s' & Hst' & Hs' & _).
    { eapply data_ok_stmt; eauto. }
    unfold mbind, M_bind. rewrite Hst'. exact Hs'.
Qed.

Lemma keeps_execute_one {A} l a sql table (st : stmt (list A)) :
  stmt_keeps l a st → keeps l a (execute_one sql table st).
Proof.
  intros Hst. unfold execute_one. apply keeps_bind; [by apply keeps_execute|].
  intros [|r [|r' rows]]; first [apply keeps_ret|apply keeps_raise].
Qed.

Lemma many_pass_keeps {R} l a (f : R → stmt unit) rows d d' e :
  (∀ r, stmt_keeps l a (f r)) → many_pass f rows d = (d', e) →
  (line_bits d' ≠ [] → line_bits d ≠ [] ∨ l = true) ∧
  (arc d' ≠ [] → arc d ≠ [] ∨ a = true).
Proof.
  intros Hf. revert d. induction rows as [|[r|] rows IH]; intros d; simpl.
  - intros [= <- _]. auto.
  - destruct (f r d) as [[] d1|msg] eqn:Hr.
    + intros H. specialize (IH d1 H). destruct (Hf r d tt d1 Hr) as [H1 H2].
      destruct IH as [H3 H4]. split; intros Hn; [destruct (H3 Hn)|destruct (H4 Hn)]; auto.
    + intros [= <- _]. auto.
  - intros [= <- _]. auto.
Qed.

Lemma keeps_executemany {R} l a sql table (f : R → stmt unit) rows :
  (∀ r, stmt_keeps l a (f r)) → keeps l a (executemany sql table f rows).
Proof.
  intros Hf. unfold executemany.
  eapply hoare_bind; [apply keeps_the_db|]. intros db.
  eapply hoare_bind; [apply hoare_world|]. intros w s (-> & Hs & Hd). unfold id.
  pose proof Hs as (Hwf & Hne & Hl & Ha & Hu & Hp & Hlive).
  unfold live in Hlive. rewrite Hd in Hlive.
  destruct (db_content s.1 db) as [h err| |d] eqn:Hc; simpl; [done..|].
  assert (∀ d', (line_bits d' ≠ [] → line_bits d ≠ [] ∨ l = true) ∧
                (arc d' ≠ [] → arc d ≠ [] ∨ a = true) →
                ∃ s', db_store (Tables d') db s = (Ok tt, s') ∧ using_inv l a s') as Hstore.
  { intros d' Hk.
    destruct (db_store_using l a s db (Tables d') Hs Hd) as (s' & Hst' & Hs' & _); eauto.
    eapply data_ok_stmt; eauto. }
  destruct (many_pass f (Some <$> rows) d) as [d1 e1] eqn:H1.
  pose proof (many_pass_keeps l a f _ _ _ _ Hf H1) as Hk1.
  destruct e1 as [| |msg rest].
  - destruct (Hstore d1 Hk1) as (s' & -> & Hs'). done.
  - destruct (Hstore d1 Hk1) as (s' & -> & Hs'). done.
  - destruct (many_pass f (Some <$> rows) d1) as [d2 e2] eqn:H2.
    pose proof (many_pass_keeps l a f _ _ _ _ Hf H2) as Hk2.
    assert ((line_bits d2 ≠ [] → line_bits d ≠ [] ∨ l = true) ∧
            (arc d2 ≠ [] → arc d ≠ [] ∨ a = true)) as Hk.
    { destruct Hk1 as [A1 A2], Hk2 as [B1 B2].
      split; intros Hn; [destruct (B1 Hn)|destruct (B2 Hn)]; auto. }
    destruct (Hstore d2 Hk) as (s' & Hst' & Hs').
    destruct e2; unfold mbind, M_bind; rewrite ?Hst'; done.
Qed.

Lemma keeps_pragma l a sql : keeps l a (pragma sql).
Proof.
  unfold pragma.
  eapply hoare_bind; [apply keeps_the_db|]. intros db.
  eapply hoare_bind; [apply hoare_world|]. intros w s (-> & Hs & Hd). unfold id.
  destruct (db_content s.1 db) as [h err| |d]; [|done..].
  exact (keeps_execute_error (A:=unit) l a db err s Hs).
Qed.

Lemma keeps_SqliteDb__connect l a : keeps l a SqliteDb__connect.
Proof.
  unfold SqliteDb__connect.
  eapply hoare_bind; [apply keeps_the_db|]. intros db.
  eapply hoare_bind; [apply hoare_world|]. intros w s (-> & Hs & Hd). unfold id.
  case_decide; [done|].
  pose proof Hs as (Hwf & Hne & Hl & Ha & Hu & Hp & Hlive).
  unfold live in Hlive. rewrite Hd in Hlive.
  destruct (db_store_using l a s db (db_content s.1 db) Hs Hd Hlive) as (s' & Hst & Hs' & _).
  unfold mbind at 1, M_bind at 1. rewrite Hst.
  clear Hst.
  apply (keeps_bind l a (pragma "pragma journal_mode=off")
           (fun _ => pragma "pragma synchronous=off")); [apply keeps_pragma| |done].
  intros _. apply keeps_pragma.
Qed.

Lemma keeps_with_db {A} l a (body : M St A) : keeps l a body → keeps l a (with_db body).
Proof. intros H. unfold with_db. apply keeps_bind; [apply keeps_SqliteDb__connect|done]. Qed.

Lemma using_inv_mkc l a w c x :
  using_inv l a (w, c) → data_ok c x → using_inv l a (mkc w c x).
Proof.
  intros (Hwf & Hne & Hl & Ha & Hu & Hp & _) Hx. simpl in *.
  pose proof (db_content_mkc w c x) as Hc.
  unfold using_inv, live, mkc in *. simpl in *. rewrite Hc. by repeat split.
Qed.

(** Opening [":memory:"] when a file of that name exists: the new
    connection holds no table, and reading the schema version raises. *)
Lemma _open_db_memory w c :
  _filename c = memory → ∃ e, _open_db (w, c) = (Raise e, mkc w c NoTables).
Proof.
  intros Hm. unfold _open_db. do 2 mleaf. simpl.
  unfold _read_db. mleaf. simpl _filename.
  mby ltac:(by apply the_db_some). unfold with_db.
  mrw (SqliteDb__connect_new w c (or_intror Hm)).
  destruct (execute_mkc_error "select version from coverage_schema" "coverage_schema"
              select_version w c NoTables _ eq_refl) as [e He].
  eexists.
  mraise ltac:(erewrite try_except_raise;
               [reflexivity|unfold execute_one; by mraise ltac:(exact He)]).
  reflexivity.
Qed.

Lemma keeps__connect l a :
  hoare (using_inv l a) _connect
    (fun _ s => using_inv l a s ∧ is_Some (_dbs s.2)) (fun _ => using_inv l a).
Proof.
  intros [w c] Hs. unfold _connect. do 2 mleaf. simpl.
  pose proof Hs as (Hwf & Hne & Hl & Ha & Hu & Hp & Hlive).
  unfold live in Hlive. simpl in *.
  destruct (_dbs c) as [db|] eqn:Hd.
  - simpl. split; [done|]. rewrite Hd. by eexists.
  - case_decide as Hex.
    + destruct Hlive as [Hn|Hm]; [rewrite Hn in Hex; by destruct Hex|].
      destruct (_open_db_memory w c Hm) as [e ->].
      by apply using_inv_mkc.
    + assert (fs w !! _filename c = None) as Hn.
      { destruct (fs w !! _filename c) eqn:E; [|done]. destruct Hex. by eexists. }
      rewrite (_create_db_new w c Hn). split.
      * apply using_inv_mkc; [done|]. simpl. by split.
      * by eexists.
Qed.

Lemma keeps_with_connect {A} l a (body : M St A) :
  keeps l a body → keeps l a (with_connect body).
Proof.
  intros H. unfold with_connect.
  eapply hoare_bind; [apply keeps__connect|]. intros [] .
  eapply hoare_pre; [by apply keeps_with_db|]. by intros s [? _].
Qed.

(** [_start_using] returns, and establishes the invariant of an operation. *)
Lemma _start_using_inv l a :
  hoare (store_inv l a) _start_using (fun _ => using_inv l a) (fun _ _ => False).
Proof.
  intros [w c] (Hwf & Hne & Hl & Ha & Hlive). simpl in *.
  unfold _start_using. do 2 mleaf. simpl.
  case_decide as Hp.
  - mrw (_reset_eq w c).
    destruct (_choose_filename_eq w
      (set__current_context_id None
         (set__have_used false (set__file_map [] (set__dbs None c)))))
      as (name & Hc & Hn).
    mrw Hc. do 2 mleaf. simpl.
    mby ltac:(apply erase_false_eq). simpl.
    unfold set_self, using_inv, live. simpl.
    repeat split; auto.
    + by destruct (_no_disk c).
    + destruct (_no_disk c) eqn:E; simpl; [right; by apply Hn|left; apply lookup_delete_eq].
  - assert (_pid c = os_getpid w) as Hp' by (by destruct (decide (_pid c = os_getpid w))).
    do 2 mleaf. simpl. destruct (_have_used c) eqn:Hu; simpl.
    + unfold set_self, using_inv. simpl. repeat split; auto.
    + mby ltac:(apply erase_false_eq). simpl.
      unfold set_self, using_inv, live. simpl.
      repeat split; auto.
      * by destruct (_no_disk c).
      * destruct (_no_disk c) eqn:E; simpl; [right; by apply Hwf|left; apply lookup_delete_eq].
Qed.

Lemma keeps__start_using l a : keeps l a _start_using.
Proof.
  eapply hoare_conseq; [apply (_start_using_inv l a)|..]; try done.
  intros s Hs. by apply using_store_inv.
Qed.

(** Statements that change neither [line_bits] nor [arc]. *)
Lemma stmt_keeps_same {A} l a (st : stmt A) :
  (∀ d r d', st d = SqlOk r d' → line_bits d' = line_bits d ∧ arc d' = arc d) →
  stmt_keeps l a st.
Proof. intros H d r d' Hr. destruct (H d r d' Hr) as [-> ->]. auto. Qed.

Lemma stmt_keeps_query {A} l a (f : Database → A) : stmt_keeps l a (query f).
Proof. apply stmt_keeps_same. by intros d r d' [= _ <-]. Qed.

Ltac stmt_same :=
  apply stmt_keeps_same;
  let d := fresh "d" in let r := fresh "r" in let d' := fresh "d'" in let H := fresh "H" in
  intros d r d' H; cbv beta zeta delta [insert_meta insert_or_replace_file insert_or_ignore_file
    insert_context insert_or_ignore_context insert_tracer insert_or_ignore_tracer
    insert_coverage_schema] in H;
  repeat case_decide; simplify_eq; done.

Lemma stmt_keeps_insert_meta l a kv : stmt_keeps l a (insert_meta kv).
Proof. stmt_same. Qed.

Lemma stmt_keeps_insert_or_replace_file l a path :
  stmt_keeps l a (insert_or_replace_file path).
Proof. stmt_same. Qed.

Lemma stmt_keeps_insert_context l a ctx : stmt_keeps l a (insert_context ctx).
Proof. stmt_same. Qed.

Lemma stmt_keeps_insert_tracer l a row : stmt_keeps l a (insert_tracer row).
Proof. stmt_same. Qed.

Lemma stmt_keeps_insert_or_replace_line_bits a row :
  stmt_keeps true a (insert_or_replace_line_bits row).
Proof. intros d r d' [= _ <-]. simpl. auto. Qed.

Lemma stmt_keeps_insert_or_ignore_arc l row : stmt_keeps l true (insert_or_ignore_arc row).
Proof.
  intros d r d' H. unfold insert_or_ignore_arc in H. case_decide; injection H as _ <-; auto.
Qed.


Create HintDb keeps discriminated.

(** Discharges [keeps] goals along the structure of the computation. *)
Ltac kp :=
  repeat first
    [ apply keeps_ret | apply keeps_raise | apply keeps_self | apply keeps_world
    | apply keeps__start_using
    | apply keeps_set_self; [by intros []|by intros []]
    | apply keeps_execute_one; first [apply stmt_keeps_query|stmt_same]
    | apply keeps_execute;
        first [ apply stmt_keeps_query | apply stmt_keeps_insert_or_replace_line_bits
              | stmt_same ]
    | apply keeps_executemany; intros ?; apply stmt_keeps_insert_or_ignore_arc
    | apply keeps_with_connect
    | apply keeps_for_each; intros ?
    | solve [auto 1 with keeps nocore]
    | apply keeps_bind; [|intros ?]
    | match goal with
      | |- keeps _ _ (match ?x with _ => _ end) => destruct x
      | |- keeps _ _ (let '(_, _) := ?x in _) => destruct x
      end ].

Lemma keeps__file_id l a path add : keeps l a (_file_id path add).
Proof. unfold _file_id. kp. Qed.
#[local] Hint Resolve keeps__file_id : keeps.

Lemma keeps__context_id l a ctx : keeps l a (_context_id ctx).
Proof. unfold _context_id. kp. Qed.
#[local] Hint Resolve keeps__context_id : keeps.

Lemma keeps__set_context_id l a : keeps l a _set_context_id.
Proof. unfold _set_context_id. kp. Qed.
#[local] Hint Resolve keeps__set_context_id : keeps.

Lemma keeps_the_file_id l a path : keeps l a (the_file_id path).
Proof. unfold the_file_id. kp. Qed.
#[local] Hint Resolve keeps_the_file_id : keeps.

Lemma keeps_current_context_id l a : keeps l a current_context_id.
Proof. unfold current_context_id. kp. Qed.
#[local] Hint Resolve keeps_current_context_id : keeps.

Lemma keeps_file_tracer l a path : keeps l a (file_tracer path).
Proof. unfold file_tracer. kp. Qed.
#[local] Hint Resolve keeps_file_tracer : keeps.

Lemma keeps_add_file_tracers l a file_tracers : keeps l a (add_file_tracers file_tracers).
Proof. unfold add_file_tracers. kp. Qed.
#[local] Hint Resolve keeps_add_file_tracers : keeps.

Lemma keeps_touch_files l a filenames plugin : keeps l a (touch_files filenames plugin).
Proof. unfold touch_files. kp. Qed.

Lemma using_inv_choose l a lines arcs w c :
  negb (lines && arcs) = true →
  _has_lines c = false → _has_arcs c = false →
  using_inv l a (w, c) →
  using_inv (l || lines) (a || arcs) (w, set__has_arcs arcs (set__has_lines lines c)).
Proof.
  intros Hla Hcl Hca (Hwf & Hne & Hl & Ha & Hu & Hp & Hlive).
  unfold using_inv, live in *. simpl in *.
  destruct c; simpl in *. subst.
  repeat split; auto.
  - destruct lines, arcs; intuition congruence.
  - destruct l, lines; intuition congruence.
  - destruct a, arcs; intuition congruence.
  - destruct _dbs0; [|done]. destruct (db_content w s); simpl in *; try done.
    destruct Hlive as [H1 H2]. split; intros H; [by apply H1 in H|by apply H2 in H].
Qed.

Lemma hoare_raise_bind {S A B} (P : S → Prop) e (f : A → M S B) Q (E : exn → S → Prop) :
  (∀ s, P s → E e s) → hoare P (raise e ≫= f) Q E.
Proof. intros H s Hs. by apply H. Qed.

Lemma hoare_ret_bind {S A B} (P : S → Prop) (x : A) (f : A → M S B) Q E :
  hoare P (f x) Q E → hoare P (mret x ≫= f) Q E.
Proof. intros H s Hs. by apply H. Qed.

Lemma _choose_lines_or_arcs_inv l a lines arcs :
  hoare (using_inv l a) (_choose_lines_or_arcs lines arcs)
        (λ _, using_inv (l || lines) (a || arcs)) (λ _, using_inv l a).
Proof.
  unfold _choose_lines_or_arcs.
  destruct (lines || arcs) eqn:Hor; simpl; [|by apply hoare_raise_bind].
  apply hoare_ret_bind.
  destruct (lines && arcs) eqn:Hand; simpl; [by apply hoare_raise_bind|].
  apply hoare_ret_bind.
  eapply hoare_bind; [apply hoare_self|]. intros c. simpl.
  apply (hoare_assume _ (l = true → _has_lines c = true)).
  { intros s [-> Hs]. apply Hs. }
  intros HL.
  apply (hoare_assume _ (a = true → _has_arcs c = true)).
  { intros s [-> Hs]. apply Hs. }
  intros HA.
  apply (hoare_assume _ (¬ (_has_lines c = true ∧ _has_arcs c = true))).
  { intros s [-> Hs]. apply Hs. }
  intros HN.
  destruct (_has_arcs c) eqn:Ha0, (_has_lines c) eqn:Hl0; [tauto|..].
  - rewrite ?andb_true_r, ?andb_false_r. simpl.
    destruct lines; simpl; [apply hoare_raise_bind; tauto|].
    do 2 apply hoare_ret_bind.
    apply hoare_ret. intros s [? (?&?&?&?&?&?&?)]. subst c. unfold id in *.
    rewrite ?orb_false_r. repeat split; auto.
  - rewrite ?andb_true_r, ?andb_false_r. simpl.
    apply hoare_ret_bind.
    destruct arcs; simpl; [apply hoare_raise_bind; tauto|].
    apply hoare_ret_bind.
    apply hoare_ret. intros s [? (?&?&?&?&?&?&?)]. subst c. unfold id in *.
    rewrite ?orb_false_r. repeat split; auto.
  - rewrite ?andb_false_r. simpl. do 2 apply hoare_ret_bind.
    eapply hoare_bind.
    { apply (hoare_set_self _ (λ s, ∃ c0, s.2 = set__has_lines lines c0 ∧
        using_inv l a (s.1, c0) ∧ _has_lines c0 = false ∧ _has_arcs c0 = false)).
      intros [w c0] [Hc Hs]. simpl in *. subst c. by exists c0. }
    intros [].
    eapply hoare_bind.
    { apply (hoare_set_self _ (using_inv (l || lines) (a || arcs))).
      intros [w c1] (c0 & -> & Hs & Hl1 & Ha1). simpl in *.
      apply using_inv_choose; auto. by rewrite Hand. }
    intros [].
    eapply hoare_conseq.
    + apply (keeps_with_connect (l || lines) (a || arcs)). kp.
    + done.
    + done.
    + intros e s. apply using_inv_weaken; intros ->; done.
Qed.

Lemma op_store_inv l a s : op_inv l a s → store_inv l a s.
Proof. intros [H|[H _]]; [by apply using_store_inv|done]. Qed.

Lemma op_inv_set_context l a ctx :
  hoare (op_inv l a) (set_context ctx) (λ _, op_inv l a) (λ _, op_inv l a).
Proof.
  intros s [Hs|(Hs & Hu & Hd)].
  - left. revert s Hs. change (keeps l a (set_context ctx)). unfold set_context. kp.
  - right. destruct s as [w c]. destruct Hs as (Hwf & Hne & Hl & Ha & Hlive).
    unfold set_context. simpl in *. destruct c; simpl in *. subst.
    repeat split; auto.
Qed.

(** An operation that starts with [_start_using()] and then keeps the
    invariant of an operation. *)
Lemma op_inv_keeps {A} l a (m : M St A) :
  keeps l a m →
  hoare (op_inv l a) (_start_using;; m) (λ _, using_inv l a) (λ _, using_inv l a).
Proof.
  intros Hm. eapply hoare_bind.
  - eapply hoare_conseq; [apply (_start_using_inv l a)|apply op_store_inv|done|done].
  - intros []. apply Hm.
Qed.

Lemma add_lines_inv l a line_data :
  hoare (op_inv l a) (add_lines line_data) (λ _, using_inv true a) (λ _, using_inv l a).
Proof.
  unfold add_lines. eapply hoare_bind.
  { eapply hoare_conseq; [apply (_start_using_inv l a)|apply op_store_inv|done|done]. }
  intros []. eapply hoare_bind; [apply (_choose_lines_or_arcs_inv l a true false)|].
  intros []. simpl. rewrite orb_true_r, orb_false_r.
  eapply hoare_conseq with (P' := using_inv true a) (Q' := λ _, using_inv true a)
    (E' := λ _, using_inv true a).
  - destruct line_data; kp.
  - done.
  - done.
  - intros ? s. apply using_inv_weaken; auto.
Qed.

Lemma add_arcs_inv l a arc_data :
  hoare (op_inv l a) (add_arcs arc_data) (λ _, using_inv l true) (λ _, using_inv l a).
Proof.
  unfold add_arcs. eapply hoare_bind.
  { eapply hoare_conseq; [apply (_start_using_inv l a)|apply op_store_inv|done|done]. }
  intros []. eapply hoare_bind; [apply (_choose_lines_or_arcs_inv l a false true)|].
  intros []. simpl. rewrite orb_true_r, orb_false_r.
  eapply hoare_conseq with (P' := using_inv l true) (Q' := λ _, using_inv l true)
    (E' := λ _, using_inv l true).
  - destruct arc_data; kp.
  - done.
  - done.
  - intros ? s. apply using_inv_weaken; auto.
Qed.

Lemma op_inv_add_file_tracers l a file_tracers :
  hoare (op_inv l a) (add_file_tracers file_tracers) (λ _, op_inv l a) (λ _, op_inv l a).
Proof.
  unfold add_file_tracers. destruct file_tracers as [|ft fts]; [by apply hoare_ret|].
  eapply hoare_conseq; [apply (op_inv_keeps l a)|done|by left..]. kp.
Qed.

Lemma op_inv_touch_files l a filenames plugin_name :
  hoare (op_inv l a) (touch_files filenames plugin_name)
        (λ _, op_inv l a) (λ _, op_inv l a).
Proof.
  unfold touch_files.
  eapply hoare_conseq; [apply (op_inv_keeps l a)|done|by left..]. kp.
Qed.

(** Every writer operation keeps the invariant, returning or raising. *)
Lemma op_inv_writer_op l a op :
  hoare (op_inv l a) (writer_op op) (λ _, op_inv l a) (λ _, op_inv l a).
Proof.
  destruct op; simpl.
  - eapply hoare_conseq; [apply (add_lines_inv l a)|done|..]; intros ? s Hs; left; [|done].
    revert Hs. apply using_inv_weaken; auto.
  - eapply hoare_conseq; [apply (add_arcs_inv l a)|done|..]; intros ? s Hs; left; [|done].
    revert Hs. apply using_inv_weaken; auto.
  - apply op_inv_add_file_tracers.
  - apply op_inv_touch_files.
  - apply op_inv_set_context.
Qed.

Lemma op_inv_run_ops l a ops s : op_inv l a s → op_inv l a (run_ops ops s).
Proof.
  revert s. induction ops as [|op ops IH]; intros s Hs; simpl; [done|].
  apply IH. pose proof (op_inv_writer_op l a op s Hs) as H.
  by destruct (writer_op op s) as [[[]|e] s'].
Qed.

(** The flags that are set can be named in the invariant. *)
Lemma op_inv_flags l a s : op_inv l a s → op_inv (_has_lines s.2) (_has_arcs s.2) s.
Proof.
  intros [(?&?&?&?&?&?&?)|((?&?&?&?&?)&?&?)]; [left|right]; repeat split; auto.
Qed.

Lemma op_inv___init__ basename suffix no_disk w :
  op_inv false false (w, __init__ basename suffix no_disk w).
Proof.
  right. unfold __init__.
  match goal with |- context [_choose_filename (w, ?c0)] =>
    destruct (_choose_filename_eq w c0) as (name & Hc & Hn); rewrite Hc end.
  simpl. repeat split; auto; try done.
  intros [H _]. done.
Qed.

(** In a store that satisfies the invariant, the database holds lines only
    under the lines flag, arcs only under the arcs flag, and not both. *)
Lemma op_inv_data l a s d :
  op_inv l a s → tables_of s = Some d →
  (line_bits d ≠ [] → _has_lines s.2 = true ∧ arc d = []) ∧
  (arc d ≠ [] → _has_arcs s.2 = true ∧ line_bits d = []).
Proof.
  intros Hs Hd. unfold tables_of in Hd.
  destruct (_dbs s.2) as [db|] eqn:Hdb; [|done]. simpl in Hd.
  destruct (db_content s.1 db) as [| |d0] eqn:Hx; try done. injection Hd as Hd. subst d0.
  destruct Hs as [(_ & Hne & _ & _ & _ & _ & Hlive)|(_ & _ & Hnone)]; [|congruence].
  unfold live in Hlive. rewrite Hdb, Hx in Hlive. destruct Hlive as [H1 H2].
  split; intros H.
  - split; [by apply H1|]. destruct (decide (arc d = [])) as [|E]; [done|].
    exfalso. apply Hne. split; [by apply H1|by apply H2].
  - split; [by apply H2|]. destruct (decide (line_bits d = [])) as [|E]; [done|].
    exfalso. apply Hne. split; [by apply H1|by apply H2].
Qed.

(** C3: for every sequence of writer operations ([add_lines], [add_arcs],
    [add_file_tracers], [touch_files], [set_context]; each may return or
    raise) on a store made by [CoverageData(basename, suffix, no_disk)], the
    store never holds both line data and arc data: the two mode flags are
    never both set, and the database the handle is connected to has rows in
    [line_bits] only under the lines flag and then none in [arc], rows in
    [arc] only under the arcs flag and then none in [line_bits].  An
    [add_lines] that returns leaves the lines flag set and an [add_arcs] that
    returns leaves the arcs flag set; on an arc store [add_lines] raises the
    error "Can't add line measurements to existing branch data", on a line
    store [add_arcs] raises "Can't add branch measurements to existing line
    data"; and a flag that is set stays set after any further sequence of
    writer operations, while the other flag stays unset. *)
Theorem C3_never_both_lines_and_arcs basename suffix no_disk w ops :
  let s := run_ops ops (w, __init__ basename suffix no_disk w) in
  ¬ (_has_lines s.2 = true ∧ _has_arcs s.2 = true) ∧
  (∀ d, tables_of s = Some d →
     (line_bits d ≠ [] → _has_lines s.2 = true ∧ arc d = []) ∧
     (arc d ≠ [] → _has_arcs s.2 = true ∧ line_bits d = [])) ∧
  (∀ line_data s', add_lines line_data s = (Ok tt, s') →
     _has_lines s'.2 = true ∧ _has_arcs s'.2 = false) ∧
  (∀ arc_data s', add_arcs arc_data s = (Ok tt, s') →
     _has_arcs s'.2 = true ∧ _has_lines s'.2 = false) ∧
  (_has_arcs s.2 = true →
     ∀ line_data, ∃ s', add_lines line_data s = (Raise mixed_lines, s')) ∧
  (_has_lines s.2 = true →
     ∀ arc_data, ∃ s', add_arcs arc_data s = (Raise mixed_arcs, s')) ∧
  (∀ more, let s' := run_ops more s in
     (_has_lines s.2 = true → _has_lines s'.2 = true ∧ _has_arcs s'.2 = false) ∧
     (_has_arcs s.2 = true → _has_arcs s'.2 = true ∧ _has_lines s'.2 = false)).
Proof.
  intros s.
  assert (op_inv false false s) as Hs by apply op_inv_run_ops, op_inv___init__.
  assert (∀ l a t, op_inv l a t → ¬ (_has_lines t.2 = true ∧ _has_arcs t.2 = true))
    as Hne by (intros l a t Ht; apply (op_store_inv l a t Ht)).
  assert (∀ l a t, using_inv l a t → ¬ (_has_lines t.2 = true ∧ _has_arcs t.2 = true))
    as Hne' by (intros l a t Ht; apply Ht).
  split; [by apply (Hne false false)|].
  split; [intros d; by apply (op_inv_data false false)|].
  split.
  { intros line_data s' Hr. pose proof (add_lines_inv false false line_data s Hs) as H.
    rewrite Hr in H. assert (_has_lines s'.2 = true) as Hl by (by apply H).
    split; [done|]. apply Hne' in H. destruct (_has_arcs s'.2); tauto. }
  split.
  { intros arc_data s' Hr. pose proof (add_arcs_inv false false arc_data s Hs) as H.
    rewrite Hr in H. assert (_has_arcs s'.2 = true) as Ha by (by apply H).
    split; [done|]. apply Hne' in H. destruct (_has_lines s'.2); tauto. }
  split.
  { intros Ha line_data. destruct (add_lines_mixed line_data s Ha) as (s' & Hr & _).
    by exists s'. }
  split.
  { intros Hl arc_data. destruct (add_arcs_mixed arc_data s Hl) as (s' & Hr & _).
    by exists s'. }
  intros more s'.
  pose proof (op_inv_run_ops _ _ more s (op_inv_flags _ _ s Hs)) as H. fold s' in H.
  pose proof (Hne _ _ _ H) as Hn. apply op_store_inv in H.
  destruct H as (_ & _ & Hl & Ha & _).
  split; intros Hf.
  - split; [by apply Hl|]. destruct (_has_arcs s'.2); tauto.
  - split; [by apply Ha|]. destruct (_has_lines s'.2); tauto.
Qed.
